(** * SwiftRide: a shallow embedding of [SwiftRide.py]

    The Python program keeps three kinds of mutable objects (drivers,
    customers, rides) that refer to one another: a ride points to its driver,
    the driver points back to its current ride, and a customer's history
    lists rides.  The embedding keeps one heap per class, with references as
    indices into the heap, so that aliasing is visible: updating a driver
    through the registry is seen through every ride that refers to it.

    Methods are written in a state-and-exception monad [Py].  A Python
    exception does not roll the heap back, so a raising computation still
    returns the state it reached.

    Numbers: the demo passes Python [int] distances, which are unbounded;
    the rides of the heap carry them as [Z].  A fare policy also accepts a
    Python [float], a binary64 number: [calculate_fare_float] is the same
    method on that type, with the rounding of binary64 arithmetic.  Strings
    are [string] (byte strings); [str.lower] is modelled on the ASCII letters
    and leaves every other character alone. *)

From Stdlib Require Import ZArith String Ascii List Bool Lia DecimalString.
From Stdlib Require Import PrimFloat FloatOps SpecFloat.
From stdpp Require Import base option list strings gmap.

Local Open Scope string_scope.
Local Open Scope Z_scope.

(** ** Enumerations and fare policies *)

(** [class DriverStatus(Enum)] *)
Inductive DriverStatus : Type :=
| AVAILABLE
| OCCUPIED.

Definition DriverStatus_value (s : DriverStatus) : string :=
  match s with
  | AVAILABLE => "available"
  | OCCUPIED => "occupied"
  end.

Definition DriverStatus_eqb (a b : DriverStatus) : bool :=
  match a, b with
  | AVAILABLE, AVAILABLE => true
  | OCCUPIED, OCCUPIED => true
  | _, _ => false
  end.

(** The three concrete subclasses of the abstract [RideType]. *)
Inductive RideType : Type :=
| EconomyRide
| LuxuryRide
| PoolRide.

(** [RideType.calculate_fare(self, distance)] *)
Definition calculate_fare (self : RideType) (distance : Z) : Z :=
  match self with
  | EconomyRide => distance * 5
  | LuxuryRide => distance * 10
  | PoolRide => distance * 3
  end.

(** [RideType.calculate_fare(self, distance)] when [distance] is a Python
    [float]: the int rate is converted to the float of the same value and
    the product is rounded to the nearest binary64 number, ties to even. *)
Definition calculate_fare_float (self : RideType) (distance : float) : float :=
  match self with
  | EconomyRide => (distance * 5)%float
  | LuxuryRide => (distance * 10)%float
  | PoolRide => (distance * 3)%float
  end.

(** [RideType.get_type_name(self)] *)
Definition get_type_name (self : RideType) : string :=
  match self with
  | EconomyRide => "Economy"
  | LuxuryRide => "Luxury"
  | PoolRide => "Pool"
  end.

(** ** Strings *)

(** [str.lower] on one character: the 26 ASCII capitals move down by 32. *)
Definition lower_char (c : ascii) : ascii :=
  let n := nat_of_ascii c in
  if ((65 <=? n)%nat && (n <=? 90)%nat)%bool then ascii_of_nat (n + 32) else c.

(** [str.lower] *)
Fixpoint lower (s : string) : string :=
  match s with
  | EmptyString => EmptyString
  | String c rest => String (lower_char c) (lower rest)
  end.

(** ** Exceptions *)

Inductive exn : Type :=
| ValueError (msg : string)
| OverflowError (msg : string)
| AttributeError (msg : string).

(** [str(e)] for an exception built from a single message argument. *)
Definition exn_str (e : exn) : string :=
  match e with
  | ValueError msg => msg
  | OverflowError msg => msg
  | AttributeError msg => msg
  end.

(** ** The factory *)

(** The dictionary literal that [create_ride_type] builds on every call. *)
Definition ride_types : gmap string RideType :=
  <["economy" := EconomyRide]> (<["luxury" := LuxuryRide]> (<["pool" := PoolRide]> ∅)).

(** [RideTypeFactory.create_ride_type(ride_type)]: a pure function that
    either returns a policy or raises [ValueError]. *)
Definition create_ride_type (ride_type : string) : exn + RideType :=
  let ride_type_lower := lower ride_type in
  match ride_types !! ride_type_lower with
  | None => inl (ValueError ("Invalid ride type: " +:+ ride_type))
  | Some policy => inr policy
  end.

(** ** Objects and the heap *)

(** A reference is the index of an object in the heap of its class. *)
Definition ref : Type := nat.
Bind Scope nat_scope with ref.

(** [class Driver] *)
Record Driver : Type := mkDriver {
  driver_name : string;
  status : DriverStatus;
  current_ride : option ref   (* a Ride, or None *)
}.

(** [class Customer] *)
Record Customer : Type := mkCustomer {
  customer_name : string;
  ride_history : list ref     (* Rides, in booking order *)
}.

(** [class Ride] *)
Record Ride : Type := mkRide {
  customer : ref;             (* a Customer *)
  pickup_location : string;
  dropoff_location : string;
  distance : Z;
  ride_type : RideType;
  fare : Z;
  driver : option ref;        (* a Driver, or None *)
  is_confirmed : bool
}.

(** The program state: the three heaps, the one [SwiftRideSystem] with its
    [DriverManager] (shared with its [RideBookingService]), and what has
    been printed so far, one entry per call of [print]. *)
Record State : Type := mkState {
  driver_heap : list Driver;
  customer_heap : list Customer;
  ride_heap : list Ride;
  drivers : list ref;         (* DriverManager.drivers *)
  customers : list ref;       (* SwiftRideSystem.customers *)
  stdout : list string
}.

Definition set_driver_heap (h : list Driver) (st : State) : State :=
  mkState h (customer_heap st) (ride_heap st) (drivers st) (customers st) (stdout st).
Definition set_customer_heap (h : list Customer) (st : State) : State :=
  mkState (driver_heap st) h (ride_heap st) (drivers st) (customers st) (stdout st).
Definition set_ride_heap (h : list Ride) (st : State) : State :=
  mkState (driver_heap st) (customer_heap st) h (drivers st) (customers st) (stdout st).
Definition set_drivers (l : list ref) (st : State) : State :=
  mkState (driver_heap st) (customer_heap st) (ride_heap st) l (customers st) (stdout st).
Definition set_customers (l : list ref) (st : State) : State :=
  mkState (driver_heap st) (customer_heap st) (ride_heap st) (drivers st) l (stdout st).
Definition set_stdout (l : list string) (st : State) : State :=
  mkState (driver_heap st) (customer_heap st) (ride_heap st) (drivers st) (customers st) l.

(** ** The monad of Python computations *)

Inductive outcome (A : Type) : Type :=
| Return (a : A)
| Raise (e : exn).
Arguments Return {A} a.
Arguments Raise {A} e.

(** A computation maps a state to an outcome and the state reached.  [None]
    stands for following a reference that is not in the heap, which no
    Python program can do; the theorems exclude it by well-formedness. *)
Definition Py (A : Type) : Type := State -> option (outcome A * State).

Definition ret {A} (a : A) : Py A := fun st => Some (Return a, st).

Definition raise {A} (e : exn) : Py A := fun st => Some (Raise e, st).

Definition bind {A B} (m : Py A) (k : A -> Py B) : Py B := fun st =>
  match m st with
  | Some (Return a, st') => k a st'
  | Some (Raise e, st') => Some (Raise e, st')
  | None => None
  end.

Declare Scope py_scope.
Delimit Scope py_scope with py.
Notation "x <- m ;; k" := (bind m (fun x => k))
  (at level 100, m at next level, right associativity) : py_scope.
Notation "m ;;; k" := (bind m (fun _ => k))
  (at level 100, right associativity) : py_scope.
Local Open Scope py_scope.

(** [try: body  except ValueError as e: handler(e)]; any other exception
    passes through. *)
Definition try_except_ValueError {A} (body : Py A) (handler : exn -> Py A) : Py A :=
  fun st =>
    match body st with
    | Some (Raise (ValueError msg), st') => handler (ValueError msg) st'
    | r => r
    end.

Definition gets {A} (f : State -> A) : Py A := fun st => Some (Return (f st), st).

Definition modify (f : State -> State) : Py unit := fun st => Some (Return tt, f st).

(** Lift a pure computation that may raise. *)
Definition lift_exn {A} (r : exn + A) : Py A :=
  match r with
  | inl e => raise e
  | inr a => ret a
  end.

(** Reading an object through a reference. *)
Definition load {A} (heap : State -> list A) (r : ref) : Py A := fun st =>
  match heap st !! r with
  | Some o => Some (Return o, st)
  | None => None
  end.

(** [print(line)] *)
Definition print (line : string) : Py unit :=
  modify (fun st => set_stdout (stdout st ++ [line]) st).

(** Allocation of a new object: it goes to the end of its heap. *)
Definition new_driver (o : Driver) : Py ref := fun st =>
  Some (Return (length (driver_heap st)), set_driver_heap (driver_heap st ++ [o]) st).
Definition new_customer (o : Customer) : Py ref := fun st =>
  Some (Return (length (customer_heap st)), set_customer_heap (customer_heap st ++ [o]) st).
Definition new_ride (o : Ride) : Py ref := fun st =>
  Some (Return (length (ride_heap st)), set_ride_heap (ride_heap st ++ [o]) st).

(** Assignment to the fields of the object behind a reference. *)
Definition update_driver (r : ref) (f : Driver -> Driver) : Py unit := fun st =>
  match driver_heap st !! r with
  | Some o => Some (Return tt, set_driver_heap (<[r := f o]> (driver_heap st)) st)
  | None => None
  end.
Definition update_customer (r : ref) (f : Customer -> Customer) : Py unit := fun st =>
  match customer_heap st !! r with
  | Some o => Some (Return tt, set_customer_heap (<[r := f o]> (customer_heap st)) st)
  | None => None
  end.
Definition update_ride (r : ref) (f : Ride -> Ride) : Py unit := fun st =>
  match ride_heap st !! r with
  | Some o => Some (Return tt, set_ride_heap (<[r := f o]> (ride_heap st)) st)
  | None => None
  end.

Definition with_status (s : DriverStatus) (d : Driver) : Driver :=
  mkDriver (driver_name d) s (current_ride d).
Definition with_current_ride (r : option ref) (d : Driver) : Driver :=
  mkDriver (driver_name d) (status d) r.
Definition with_driver (d : option ref) (r : Ride) : Ride :=
  mkRide (customer r) (pickup_location r) (dropoff_location r) (distance r)
         (ride_type r) (fare r) d (is_confirmed r).
Definition with_is_confirmed (b : bool) (r : Ride) : Ride :=
  mkRide (customer r) (pickup_location r) (dropoff_location r) (distance r)
         (ride_type r) (fare r) (driver r) b.
Definition history_append (ride : ref) (c : Customer) : Customer :=
  mkCustomer (customer_name c) (ride_history c ++ [ride]).

(** ** class Driver *)

(** [Driver.__init__(self, name)] *)
Definition Driver_init (name : string) : Py ref :=
  new_driver (mkDriver name AVAILABLE None).

(** [Driver.is_available(self)] *)
Definition Driver_is_available (self : ref) : Py bool :=
  d <- load driver_heap self ;;
  ret (DriverStatus_eqb (status d) AVAILABLE).

(** [Driver.assign_ride(self, ride)] *)
Definition Driver_assign_ride (self : ref) (ride : ref) : Py unit :=
  available <- Driver_is_available self ;;
  if negb available then
    d <- load driver_heap self ;;
    raise (ValueError ("Driver " +:+ driver_name d +:+ " is not available"))
  else
    update_driver self (with_status OCCUPIED) ;;;
    update_driver self (with_current_ride (Some ride)).

(** [Driver.complete_ride(self)] *)
Definition Driver_complete_ride (self : ref) : Py unit :=
  update_driver self (with_status AVAILABLE) ;;;
  update_driver self (with_current_ride None).

(** ** class Customer *)

(** [Customer.__init__(self, name)] *)
Definition Customer_init (name : string) : Py ref :=
  new_customer (mkCustomer name []).

(** ** class Ride *)

(** [Ride.__init__(self, customer, pickup_location, dropoff_location,
    distance, ride_type)] *)
Definition Ride_init (customer : ref) (pickup_location dropoff_location : string)
    (distance : Z) (ride_type : RideType) : Py ref :=
  new_ride (mkRide customer pickup_location dropoff_location distance ride_type
                   (calculate_fare ride_type distance) None false).

(** [Ride.assign_driver(self, driver)] *)
Definition Ride_assign_driver (self : ref) (driver : ref) : Py unit :=
  update_ride self (with_driver (Some driver)) ;;;
  Driver_assign_ride driver self ;;;
  update_ride self (with_is_confirmed true).

(** ** class DriverManager *)

(** [DriverManager.add_driver(self, driver)] *)
Definition DriverManager_add_driver (driver : ref) : Py unit :=
  modify (fun st => set_drivers (drivers st ++ [driver]) st).

(** The [for driver in self.drivers] loop of [get_available_driver]. *)
Fixpoint first_available (ds : list ref) : Py (option ref) :=
  match ds with
  | [] => ret None
  | driver :: rest =>
      available <- Driver_is_available driver ;;
      if available then ret (Some driver) else first_available rest
  end.

(** [DriverManager.get_available_driver(self)] *)
Definition DriverManager_get_available_driver : Py (option ref) :=
  ds <- gets drivers ;;
  first_available ds.

(** [DriverManager.get_all_drivers(self)]: a copy of the list. *)
Definition DriverManager_get_all_drivers : Py (list ref) :=
  gets drivers.

(** ** class RideBookingService *)

(** [RideBookingService.book_ride(self, customer, pickup_location,
    dropoff_location, distance, ride_type_str)] *)
Definition RideBookingService_book_ride (customer : ref)
    (pickup_location dropoff_location : string) (distance : Z)
    (ride_type_str : string) : Py (option ref) :=
  try_except_ValueError
    (ride_type <- lift_exn (create_ride_type ride_type_str) ;;
     ride <- Ride_init customer pickup_location dropoff_location distance ride_type ;;
     available_driver <- DriverManager_get_available_driver ;;
     match available_driver with
     | Some d =>
         Ride_assign_driver ride d ;;;
         update_customer customer (history_append ride) ;;;
         ret (Some ride)
     | None => ret None
     end)
    (fun e =>
       print ("Error booking ride: " +:+ exn_str e) ;;;
       ret None).

(** ** Formatting a fare with [:.0f] *)

(** [float(n)] for a Python int [n]: the nearest binary64 number, ties to
    even, given by the integer it denotes; [None] when it is out of range.
    Integers of at most 53 bits are represented exactly. *)
Definition float_of_int (n : Z) : option Z :=
  let a := Z.abs n in
  let bits := Z.log2 a + 1 in
  if bits <=? 53 then Some n
  else
    let sh := bits - 53 in
    let q := Z.shiftr a sh in
    let r := Z.land a (Z.ones sh) in
    let half := Z.shiftl 1 (sh - 1) in
    let q' := if ((half <? r) || ((r =? half) && Z.odd q))%bool then q + 1 else q in
    let v := Z.shiftl q' sh in
    if Z.shiftl 1 1024 <=? v then None else Some (Z.sgn n * v).

(** [format(n, ".0f")] for a Python int [n]: the int is converted to a
    float, whose integral value is then written in decimal. *)
Definition format_0f (n : Z) : exn + string :=
  match float_of_int n with
  | Some v => inr (NilZero.string_of_int (Z.to_int v))
  | None => inl (OverflowError "int too large to convert to float")
  end.

(** ** class SwiftRideSystem *)

(** [SwiftRideSystem.__init__(self)]: no driver, no customer, nothing
    printed. *)
Definition SwiftRideSystem_init : State := mkState [] [] [] [] [] [].

(** [SwiftRideSystem.add_driver(self, name)] *)
Definition SwiftRideSystem_add_driver (name : string) : Py ref :=
  driver <- Driver_init name ;;
  DriverManager_add_driver driver ;;;
  ret driver.

(** [SwiftRideSystem.add_customer(self, name)] *)
Definition SwiftRideSystem_add_customer (name : string) : Py ref :=
  customer <- Customer_init name ;;
  modify (fun st => set_customers (customers st ++ [customer]) st) ;;;
  ret customer.

(** [SwiftRideSystem.book_ride(self, customer, pickup_location,
    dropoff_location, distance, ride_type)] *)
Definition SwiftRideSystem_book_ride (customer : ref)
    (pickup_location dropoff_location : string) (distance : Z)
    (ride_type : string) : Py unit :=
  ride <- RideBookingService_book_ride customer pickup_location dropoff_location
            distance ride_type ;;
  match ride with
  | Some r =>
      o <- load ride_heap r ;;
      fare_text <- lift_exn (format_0f (fare o)) ;;
      match driver o with
      | Some d =>
          dr <- load driver_heap d ;;
          print ("Ride Fare: $" +:+ fare_text +:+ ", Driver: " +:+ driver_name dr)
      | None => raise (AttributeError "'NoneType' object has no attribute 'name'")
      end
  | None => print "No drivers available."
  end.

(** The newline character of ["\n"]. *)
Definition nl : string := String (ascii_of_nat 10) EmptyString.

(** [main()] *)
Definition main : Py unit :=
  alice <- SwiftRideSystem_add_driver "Alice" ;;
  bob <- SwiftRideSystem_add_driver "Bob" ;;
  john <- SwiftRideSystem_add_customer "John" ;;
  rebecca <- SwiftRideSystem_add_customer "Rebecca" ;;
  mike <- SwiftRideSystem_add_customer "Mike" ;;
  print ("=== SwiftRide System Test ===" +:+ nl) ;;;
  print "Task 6:" ;;;
  SwiftRideSystem_book_ride john "Airport" "Downtown" 15 "Economy" ;;;
  print (nl +:+ "Task 7:") ;;;
  SwiftRideSystem_book_ride rebecca "College" "Downtown" 10 "Luxury" ;;;
  print (nl +:+ "Task 8:") ;;;
  SwiftRideSystem_book_ride mike "Downtown" "Shopping Mall" 5 "Pool".

(** ** What the specification calls things *)

(** A capital letter [c] is a casing of the small letter [w] it is the
    capital of; every character is a casing of itself. *)
Definition casing_char (c w : ascii) : bool :=
  let n := nat_of_ascii c in
  let m := nat_of_ascii w in
  (Ascii.eqb c w || ((97 <=? m)%nat && (m <=? 122)%nat && (n + 32 =? m)%nat))%bool.

(** [casing_of s w]: [s] is the word [w] in some casing, letter by letter. *)
Fixpoint casing_of (s w : string) : bool :=
  match s, w with
  | EmptyString, EmptyString => true
  | String c s', String d w' => (casing_char c d && casing_of s' w')%bool
  | _, _ => false
  end.

(** The factory as the specification words it: any casing of one of the
    three category names gives its policy, anything else is an invalid
    category carrying the input as it was given. *)
Definition create_spec (category : string) : exn + RideType :=
  if casing_of category "economy" then inr EconomyRide
  else if casing_of category "luxury" then inr LuxuryRide
  else if casing_of category "pool" then inr PoolRide
  else inl (ValueError ("Invalid ride type: " +:+ category)).

(** A word of small ASCII letters only. *)
Fixpoint small_letters (w : string) : bool :=
  match w with
  | EmptyString => true
  | String d w' =>
      ((97 <=? nat_of_ascii d)%nat && (nat_of_ascii d <=? 122)%nat && small_letters w')%bool
  end.

(** The number a finite float stands for, as a pair [(m, e)] read
    [m * 2 ^ e]; infinities and NaN stand for none. *)
Definition float_value (x : float) : option (Z * Z) :=
  match Prim2SF x with
  | S754_zero _ => Some (0, 0)
  | S754_finite s m e => Some (if s then Z.neg m else Z.pos m, e)
  | S754_infinity _ => None
  | S754_nan => None
  end.

(** [exact_multiple k d r]: the float [r] stands for exactly [k] times the
    number the float [d] stands for. *)
Definition exact_multiple (k : Z) (d r : float) : bool :=
  match float_value d, float_value r with
  | Some (md, ed), Some (mr, er) =>
      let e := Z.min ed er in
      mr * 2 ^ (er - e) =? k * md * 2 ^ (ed - e)
  | _, _ => false
  end.

(** [recognized s]: [s] is a casing of one of the three category names. *)
Definition recognized (s : string) : bool :=
  (casing_of s "economy" || casing_of s "luxury" || casing_of s "pool")%bool.

(** A driver reference that is in the heap and whose driver is Available. *)
Definition availableb (h : list Driver) (d : ref) : bool :=
  match h !! d with
  | Some o => DriverStatus_eqb (status o) AVAILABLE
  | None => false
  end.

(** Every reference held by the [DriverManager] is in the driver heap. *)
Definition registry_valid (st : State) : Prop :=
  Forall (fun d => is_Some (driver_heap st !! d)) (drivers st).

(** The places that hold a reference to a ride: a customer's history and a
    driver's current ride. *)
Definition ride_referenced (st : State) (r : ref) : Prop :=
  (exists c o, customer_heap st !! c = Some o /\ r ∈ ride_history o) \/
  (exists d o, driver_heap st !! d = Some o /\ current_ride o = Some r).

(** No history and no driver refers to a ride that is not in the heap. *)
Definition rides_closed (st : State) : bool :=
  (forallb (fun o => forallb (fun r => r <? length (ride_heap st))%nat (ride_history o))
           (customer_heap st) &&
   forallb (fun o => match current_ride o with
                     | Some r => (r <? length (ride_heap st))%nat
                     | None => true
                     end)
           (driver_heap st))%bool.

(** The invariant the specification gives for a ride: confirmed exactly
    when a driver is set. *)
Definition ride_invariant (o : Ride) : Prop :=
  is_confirmed o = true <-> is_Some (driver o).

(** ** Some states of the demo *)

(** After the five registrations of [main]. *)
Definition st_registered : State :=
  mkState [mkDriver "Alice" AVAILABLE None; mkDriver "Bob" AVAILABLE None]
          [mkCustomer "John" []; mkCustomer "Rebecca" []; mkCustomer "Mike" []]
          []
          [0; 1]%nat [0; 1; 2]%nat [].

(** After John's booking: Alice drives ride 0, Bob is idle. *)
Definition st_one_booked : State :=
  mkState [mkDriver "Alice" OCCUPIED (Some 0%nat); mkDriver "Bob" AVAILABLE None]
          [mkCustomer "John" [0%nat]; mkCustomer "Rebecca" []; mkCustomer "Mike" []]
          [mkRide 0 "Airport" "Downtown" 15 EconomyRide 75 (Some 0%nat) true]
          [0; 1]%nat [0; 1; 2]%nat [].

(** After Rebecca's booking as well: both drivers are busy. *)
Definition st_all_busy : State :=
  mkState [mkDriver "Alice" OCCUPIED (Some 0%nat); mkDriver "Bob" OCCUPIED (Some 1%nat)]
          [mkCustomer "John" [0%nat]; mkCustomer "Rebecca" [1%nat]; mkCustomer "Mike" []]
          [mkRide 0 "Airport" "Downtown" 15 EconomyRide 75 (Some 0%nat) true;
           mkRide 1 "College" "Downtown" 10 LuxuryRide 100 (Some 1%nat) true]
          [0; 1]%nat [0; 1; 2]%nat [].

(** [st_one_booked] after a caller has built one more ride for Rebecca,
    [Ride(rebecca, "College", "Downtown", 10, LuxuryRide())], and not yet
    assigned it. *)
Definition st_pending : State :=
  mkState [mkDriver "Alice" OCCUPIED (Some 0%nat); mkDriver "Bob" AVAILABLE None]
          [mkCustomer "John" [0%nat]; mkCustomer "Rebecca" []; mkCustomer "Mike" []]
          [mkRide 0 "Airport" "Downtown" 15 EconomyRide 75 (Some 0%nat) true;
           mkRide 1 "College" "Downtown" 10 LuxuryRide 100 None false]
          [0; 1]%nat [0; 1; 2]%nat [].

(** The registrations of [main], and its first two bookings without the
    printing of the facade. *)
Definition register_all : Py unit :=
  SwiftRideSystem_add_driver "Alice" ;;;
  SwiftRideSystem_add_driver "Bob" ;;;
  SwiftRideSystem_add_customer "John" ;;;
  SwiftRideSystem_add_customer "Rebecca" ;;;
  SwiftRideSystem_add_customer "Mike" ;;;
  ret tt.

Definition book_john : Py (option ref) :=
  RideBookingService_book_ride 0%nat "Airport" "Downtown" 15 "Economy".

Definition book_rebecca : Py (option ref) :=
  RideBookingService_book_ride 1%nat "College" "Downtown" 10 "Luxury".

(** ** Reachable states *)

(** One call of the facade by a client. *)
Inductive step (st st' : State) : Prop :=
| step_add_driver (name : string) (d : ref) :
    SwiftRideSystem_add_driver name st = Some (Return d, st') -> step st st'
| step_add_customer (name : string) (c : ref) :
    SwiftRideSystem_add_customer name st = Some (Return c, st') -> step st st'
| step_book_ride (c : ref) (pickup dropoff : string) (dist : Z) (s : string)
    (out : outcome unit) :
    SwiftRideSystem_book_ride c pickup dropoff dist s st = Some (out, st') ->
    step st st'.

(** The states a client can bring a new system to. *)
Definition reachable (st : State) : Prop := rtc step SwiftRideSystem_init st.

(** What the theorems on booking ask of a state. *)
Definition well_formed (st : State) : Prop :=
  registry_valid st /\ rides_closed st = true.

(** ** A client of the whole interface *)

(** Besides the facade, a client holds the drivers that [add_driver]
    returned and may call [complete_ride] on them. *)
Inductive client_step (st st' : State) : Prop :=
| client_facade : step st st' -> client_step st st'
| client_complete_ride (d : ref) :
    Driver_complete_ride d st = Some (Return tt, st') -> client_step st st'.

Definition client_reachable (st : State) : Prop :=
  rtc client_step SwiftRideSystem_init st.

(** How many entries of the registry are Available drivers. *)
Definition available_count (st : State) : nat :=
  length (List.filter (availableb (driver_heap st)) (drivers st)).

(** The state a successful booking leaves: driver [d] (object [o] before)
    takes the new ride, which goes to the end of customer [c]'s history
    (object [cust] before). *)
Definition booked_state (st : State) (c : ref) (pickup dropoff : string) (dist : Z)
    (policy : RideType) (cust : Customer) (d : ref) (o : Driver) : State :=
  mkState
    (<[d := mkDriver (driver_name o) OCCUPIED (Some (length (ride_heap st)))]>
       (driver_heap st))
    (<[c := mkCustomer (customer_name cust)
                       (ride_history cust ++ [length (ride_heap st)])]>
       (customer_heap st))
    (ride_heap st ++
       [mkRide c pickup dropoff dist policy (calculate_fare policy dist) (Some d) true])
    (drivers st) (customers st) (stdout st).

(** The state a booking without driver leaves: the ride that was built
    stays in the heap, unconfirmed. *)
Definition dropped_state (st : State) (c : ref) (pickup dropoff : string) (dist : Z)
    (policy : RideType) : State :=
  set_ride_heap
    (ride_heap st ++
       [mkRide c pickup dropoff dist policy (calculate_fare policy dist) None false])
    st.

(** A driver is Occupied exactly when it has a current ride, and that ride
    names the driver and is confirmed. *)
Definition driver_consistent (st : State) (d : ref) (o : Driver) : Prop :=
  match current_ride o with
  | Some r =>
      status o = OCCUPIED /\
      exists ro, ride_heap st !! r = Some ro /\ driver ro = Some d /\ is_confirmed ro = true
  | None => status o = AVAILABLE
  end.

(** A ride keeps its invariant, carries the fare of its policy and
    distance, and its driver, if any, is a driver of the heap. *)
Definition ride_consistent (st : State) (ro : Ride) : Prop :=
  ride_invariant ro /\
  fare ro = calculate_fare (ride_type ro) (distance ro) /\
  forall d, driver ro = Some d -> is_Some (driver_heap st !! d).

(** A history lists each ride once; its rides are this customer's and are
    confirmed. *)
Definition history_consistent (st : State) (c : ref) (o : Customer) : Prop :=
  NoDup (ride_history o) /\
  forall r, r ∈ ride_history o ->
    exists ro, ride_heap st !! r = Some ro /\ customer ro = c /\ is_confirmed ro = true.

Record consistent (st : State) : Prop := mkConsistent {
  cons_wf : well_formed st;
  cons_registry : drivers st = seq 0 (length (driver_heap st));
  cons_customers : customers st = seq 0 (length (customer_heap st));
  cons_drivers : forall d o, driver_heap st !! d = Some o -> driver_consistent st d o;
  cons_rides : forall r ro, ride_heap st !! r = Some ro -> ride_consistent st ro;
  cons_histories :
    forall c o, customer_heap st !! c = Some o -> history_consistent st c o
}.

(** A state a client reaches: Alice, Bob and John registered, and John's
    ride booked through the facade. *)
Definition st_client : State :=
  mkState [mkDriver "Alice" OCCUPIED (Some 0%nat); mkDriver "Bob" AVAILABLE None]
          [mkCustomer "John" [0%nat]]
          [mkRide 0 "Airport" "Downtown" 15 EconomyRide 75 (Some 0%nat) true]
          [0; 1]%nat [0%nat] ["Ride Fare: $75, Driver: Alice"].

(** [st_client] after Rebecca has registered and booked Bob, Alice has
    completed her ride, and John has booked Alice again. *)
Definition st_client_later : State :=
  mkState [mkDriver "Alice" OCCUPIED (Some 2%nat); mkDriver "Bob" OCCUPIED (Some 1%nat)]
          [mkCustomer "John" [0; 2]%nat; mkCustomer "Rebecca" [1%nat]]
          [mkRide 0 "Airport" "Downtown" 15 EconomyRide 75 (Some 0%nat) true;
           mkRide 1 "College" "Downtown" 10 LuxuryRide 100 (Some 1%nat) true;
           mkRide 0 "Downtown" "Shopping Mall" 5 PoolRide 15 (Some 0%nat) true]
          [0; 1]%nat [0; 1]%nat
          ["Ride Fare: $75, Driver: Alice"; "Ride Fare: $100, Driver: Bob";
           "Ride Fare: $15, Driver: Alice"].

(** [grows st st']: everything in [st] is still in [st'], where it was:
    the rides unchanged, the registry, the customer list and the output
    possibly longer, every customer and driver under the same name, every
    history possibly longer. *)
Definition grows (st st' : State) : Prop :=
  ride_heap st `prefix_of` ride_heap st' /\
  drivers st `prefix_of` drivers st' /\
  customers st `prefix_of` customers st' /\
  stdout st `prefix_of` stdout st' /\
  (forall c o, customer_heap st !! c = Some o ->
     exists o', customer_heap st' !! c = Some o' /\
                customer_name o' = customer_name o /\
                ride_history o `prefix_of` ride_history o') /\
  (forall d o, driver_heap st !! d = Some o ->
     exists o', driver_heap st' !! d = Some o' /\ driver_name o' = driver_name o).

(** * Theorems *)

(** ** Fares *)

(** C2: for every integer distance [d >= 0] the Economy fare is exactly
    [5 * d], the Luxury fare exactly [10 * d] and the Pool fare exactly
    [3 * d]: no rounding, no minimum and no surcharge enter the result.  For
    a float distance the fare is the binary64 product of the distance and
    the same rate, again with no minimum and no surcharge. *)
Theorem fares_are_exact_multiples (d : Z) (Hd : 0 <= d) :
  (calculate_fare EconomyRide d = 5 * d /\
   calculate_fare LuxuryRide d = 10 * d /\
   calculate_fare PoolRide d = 3 * d) /\
  forall x : float,
    calculate_fare_float EconomyRide x = (x * 5)%float /\
    calculate_fare_float LuxuryRide x = (x * 10)%float /\
    calculate_fare_float PoolRide x = (x * 3)%float.
Proof.
  split.
  - unfold calculate_fare. repeat split; lia.
  - intros x. repeat split.
Qed.

Lemma fares_are_exact_multiples_witness :
  0 <= 15 /\
  (calculate_fare EconomyRide 15 = 5 * 15 /\
   calculate_fare LuxuryRide 15 = 10 * 15 /\
   calculate_fare PoolRide 15 = 3 * 15).
Proof.
  split; [lia |]. apply (fares_are_exact_multiples 15). lia.
Defined.

(** On floats the product is rounded.  The float nearest to 0.1 is not
    negative, and its Pool fare is not three times the number it stands
    for: that number is 21617278211378382 * 2^-56, the fare is
    21617278211378384 * 2^-56.  The Luxury fare of the float nearest to
    1e308 is no number at all, but infinity. *)
Lemma float_fare_is_rounded :
  (0 <=? 0x1.999999999999ap-4)%float = true /\
  float_value 0x1.999999999999ap-4 = Some (7205759403792794, -56) /\
  float_value (calculate_fare_float PoolRide 0x1.999999999999ap-4) =
    Some (5404319552844596, -54) /\
  exact_multiple 3 0x1.999999999999ap-4
    (calculate_fare_float PoolRide 0x1.999999999999ap-4) = false /\
  (0 <=? 0x1.1ccf385ebc8ap+1023)%float = true /\
  calculate_fare_float LuxuryRide 0x1.1ccf385ebc8ap+1023 = infinity /\
  exact_multiple 10 0x1.1ccf385ebc8ap+1023
    (calculate_fare_float LuxuryRide 0x1.1ccf385ebc8ap+1023) = false.
Proof. vm_compute. repeat split. Qed.

(** Where the product is a float, nothing is lost: 2.5 under Economy. *)
Example float_fare_of_two_and_a_half :
  calculate_fare_float EconomyRide 2.5 = 12.5%float /\
  exact_multiple 5 2.5 (calculate_fare_float EconomyRide 2.5) = true.
Proof. vm_compute. split; reflexivity. Qed.

(** ** Category resolution *)

Lemma nat_of_ascii_lt (c : ascii) : (nat_of_ascii c < 256)%nat.
Proof. apply nat_ascii_bounded. Qed.

Lemma nat_of_ascii_inj (a b : ascii) : nat_of_ascii a = nat_of_ascii b -> a = b.
Proof.
  intros H. rewrite <- (ascii_nat_embedding a), <- (ascii_nat_embedding b).
  now rewrite H.
Qed.

(** On a small letter [w], lowering [c] gives [w] exactly when [c] is a
    casing of [w]. *)
Lemma lower_char_casing (c w : ascii) :
  (97 <= nat_of_ascii w <= 122)%nat ->
  Ascii.eqb (lower_char c) w = casing_char c w.
Proof.
  intros Hw. unfold lower_char, casing_char.
  pose proof (nat_of_ascii_lt c) as Hc.
  assert (Hw1 : (97 <=? nat_of_ascii w)%nat = true) by (apply Nat.leb_le; lia).
  assert (Hw2 : (nat_of_ascii w <=? 122)%nat = true) by (apply Nat.leb_le; lia).
  rewrite Hw1, Hw2. cbn [andb].
  destruct (Nat.eqb_spec (nat_of_ascii c + 32) (nat_of_ascii w)) as [He|He].
  - (* [c] is 32 below the small letter [w]: it is its capital *)
    assert (H1 : (65 <=? nat_of_ascii c)%nat = true) by (apply Nat.leb_le; lia).
    assert (H2 : (nat_of_ascii c <=? 90)%nat = true) by (apply Nat.leb_le; lia).
    rewrite H1, H2, He, ascii_nat_embedding, Ascii.eqb_refl. cbn [andb].
    now rewrite orb_true_r.
  - rewrite orb_false_r.
    destruct ((65 <=? nat_of_ascii c)%nat && (nat_of_ascii c <=? 90)%nat)%bool eqn:Hcap;
      [| reflexivity].
    apply andb_prop in Hcap as [H1 H2]. apply Nat.leb_le in H1, H2.
    (* a capital that is not the capital of [w] *)
    transitivity false.
    + apply Ascii.eqb_neq. intros <-.
      rewrite nat_ascii_embedding in He by lia. lia.
    + symmetry. apply Ascii.eqb_neq. intros ->. lia.
Qed.

Lemma lower_casing (w : string) :
  small_letters w = true ->
  forall s, String.eqb (lower s) w = casing_of s w.
Proof.
  induction w as [|d w IH]; intros Hw s; destruct s as [|c s];
    cbn [lower casing_of String.eqb]; try reflexivity.
  cbn [small_letters] in Hw.
  apply andb_prop in Hw as [Hd Hw]. apply andb_prop in Hd as [Hd1 Hd2].
  apply Nat.leb_le in Hd1, Hd2.
  rewrite lower_char_casing by lia.
  rewrite IH by assumption.
  destruct (casing_char c d); reflexivity.
Qed.

(** The dictionary has exactly the three keys. *)
Lemma ride_types_lookup (k : string) :
  ride_types !! k =
    if String.eqb k "economy" then Some EconomyRide
    else if String.eqb k "luxury" then Some LuxuryRide
    else if String.eqb k "pool" then Some PoolRide
    else None.
Proof.
  unfold ride_types.
  destruct (String.eqb_spec k "economy") as [->|H1]; [reflexivity |].
  rewrite lookup_insert_ne by congruence.
  destruct (String.eqb_spec k "luxury") as [->|H2]; [reflexivity |].
  rewrite lookup_insert_ne by congruence.
  destruct (String.eqb_spec k "pool") as [->|H3]; [reflexivity |].
  rewrite lookup_insert_ne by congruence.
  apply lookup_empty.
Qed.

Lemma create_ride_type_refines (s : string) : create_ride_type s = create_spec s.
Proof.
  unfold create_ride_type, create_spec.
  rewrite ride_types_lookup.
  rewrite !lower_casing by reflexivity.
  destruct (casing_of s "economy"); [reflexivity |].
  destruct (casing_of s "luxury"); [reflexivity |].
  destruct (casing_of s "pool"); reflexivity.
Qed.

(** C3: the factory resolves a category without regard to case: any casing
    of "economy", "luxury" or "pool" gives the matching policy, and every
    other string fails with the invalid-category error ([ValueError]) whose
    message ends with the input string exactly as it was given. *)
Theorem create_ride_type_case_insensitive (s : string) :
  create_ride_type s =
    if casing_of s "economy" then inr EconomyRide
    else if casing_of s "luxury" then inr LuxuryRide
    else if casing_of s "pool" then inr PoolRide
    else inl (ValueError ("Invalid ride type: " +:+ s)).
Proof. exact (create_ride_type_refines s). Qed.

Example create_ECONOMY : create_ride_type "ECONOMY" = inr EconomyRide.
Proof. vm_compute. reflexivity. Qed.
Example create_Economy : create_ride_type "Economy" = inr EconomyRide.
Proof. vm_compute. reflexivity. Qed.
Example create_pOoL : create_ride_type "pOoL" = inr PoolRide.
Proof. vm_compute. reflexivity. Qed.
Example create_Premium :
  create_ride_type "Premium" = inl (ValueError "Invalid ride type: Premium").
Proof. vm_compute. reflexivity. Qed.

(** ** Running the methods *)

(** The fields of a state after assignments to some of them. *)
Ltac heap_simpl :=
  cbn [set_driver_heap set_customer_heap set_ride_heap set_drivers set_customers
       set_stdout driver_heap customer_heap ride_heap drivers customers stdout].

(** A heap after an assignment, read at the object assigned to and at any
    other object. *)
Ltac lookup_updated :=
  apply list_lookup_insert_eq; eapply lookup_lt_Some; eassumption.
Ltac lookup_framed :=
  let x := fresh "x" in
  let Hne := fresh "Hne" in
  intros x Hne; apply list_lookup_insert_ne; congruence.

Lemma bind_Return {A B} (m : Py A) (k : A -> Py B) st a st' :
  m st = Some (Return a, st') -> bind m k st = k a st'.
Proof. intros H. unfold bind. now rewrite H. Qed.

Lemma bind_Raise {A B} (m : Py A) (k : A -> Py B) st e st' :
  m st = Some (Raise e, st') -> bind m k st = Some (Raise e, st').
Proof. intros H. unfold bind. now rewrite H. Qed.

Lemma DriverStatus_eqb_eq (a b : DriverStatus) : DriverStatus_eqb a b = true <-> a = b.
Proof. destruct a, b; simpl; split; congruence. Qed.

Lemma Driver_is_available_run st d o :
  driver_heap st !! d = Some o ->
  Driver_is_available d st = Some (Return (DriverStatus_eqb (status o) AVAILABLE), st).
Proof.
  intros H. unfold Driver_is_available, bind, load. now rewrite H.
Qed.

Lemma update_driver_run st d o f :
  driver_heap st !! d = Some o ->
  update_driver d f st = Some (Return tt, set_driver_heap (<[d := f o]> (driver_heap st)) st).
Proof. intros H. unfold update_driver. now rewrite H. Qed.

Lemma update_ride_run st r o f :
  ride_heap st !! r = Some o ->
  update_ride r f st = Some (Return tt, set_ride_heap (<[r := f o]> (ride_heap st)) st).
Proof. intros H. unfold update_ride. now rewrite H. Qed.

Lemma update_customer_run st c o f :
  customer_heap st !! c = Some o ->
  update_customer c f st =
    Some (Return tt, set_customer_heap (<[c := f o]> (customer_heap st)) st).
Proof. intros H. unfold update_customer. now rewrite H. Qed.

(** Two field assignments in a row on one driver. *)
Lemma update_driver_twice st d o f g :
  driver_heap st !! d = Some o ->
  (update_driver d f ;;; update_driver d g) st =
    Some (Return tt, set_driver_heap (<[d := g (f o)]> (driver_heap st)) st).
Proof.
  intros H. pose proof (lookup_lt_Some _ _ _ H) as Hlt.
  rewrite (bind_Return _ _ _ _ _ (update_driver_run st d o f H)).
  unfold update_driver. heap_simpl.
  rewrite list_lookup_insert_eq by assumption.
  heap_simpl.
  now rewrite list_insert_insert_eq.
Qed.

Lemma Driver_assign_ride_available st d ride o :
  driver_heap st !! d = Some o ->
  status o = AVAILABLE ->
  Driver_assign_ride d ride st =
    Some (Return tt,
          set_driver_heap (<[d := mkDriver (driver_name o) OCCUPIED (Some ride)]> (driver_heap st)) st).
Proof.
  intros H Hs. unfold Driver_assign_ride.
  rewrite (bind_Return _ _ _ _ _ (Driver_is_available_run st d o H)).
  rewrite Hs. cbn [DriverStatus_eqb negb].
  now rewrite (update_driver_twice st d o _ _ H).
Qed.

Lemma Driver_assign_ride_occupied st d ride o :
  driver_heap st !! d = Some o ->
  status o = OCCUPIED ->
  Driver_assign_ride d ride st =
    Some (Raise (ValueError ("Driver " +:+ driver_name o +:+ " is not available")), st).
Proof.
  intros H Hs. unfold Driver_assign_ride.
  rewrite (bind_Return _ _ _ _ _ (Driver_is_available_run st d o H)).
  rewrite Hs. cbn [DriverStatus_eqb negb].
  unfold bind, load. now rewrite H.
Qed.

Lemma Driver_complete_ride_run st d o :
  driver_heap st !! d = Some o ->
  Driver_complete_ride d st =
    Some (Return tt,
          set_driver_heap (<[d := mkDriver (driver_name o) AVAILABLE None]> (driver_heap st)) st).
Proof.
  intros H. unfold Driver_complete_ride.
  now rewrite (update_driver_twice st d o _ _ H).
Qed.

(** ** The registry scan *)

(** The loop reads the driver heap and nothing else, and leaves the state
    as it found it: it is [List.find] on the availability test. *)
Lemma first_available_find st ds :
  Forall (fun d => is_Some (driver_heap st !! d)) ds ->
  first_available ds st = Some (Return (List.find (availableb (driver_heap st)) ds), st).
Proof.
  induction ds as [|d ds IH]; intros Hv; [reflexivity |].
  apply Forall_cons in Hv as [[o Ho] Hv].
  cbn [first_available List.find].
  rewrite (bind_Return _ _ _ _ _ (Driver_is_available_run st d o Ho)).
  unfold availableb at 1. rewrite Ho.
  destruct (DriverStatus_eqb (status o) AVAILABLE); [reflexivity |].
  now apply IH.
Qed.

(** [List.find] returns the first element, in list order, that passes. *)
Lemma find_Some_first {A} (p : A -> bool) (l : list A) (x : A) :
  List.find p l = Some x <->
  exists i, l !! i = Some x /\ p x = true /\
            forall j y, (j < i)%nat -> l !! j = Some y -> p y = false.
Proof.
  induction l as [|a l IH]; cbn [List.find].
  - split; [discriminate |]. intros (i & Hi & _). now rewrite lookup_nil in Hi.
  - destruct (p a) eqn:Hpa.
    + split.
      * intros [= ->]. exists 0%nat. repeat split; [assumption |]. intros j y Hj. lia.
      * intros (i & Hi & Hpx & Hmin). destruct i as [|i].
        -- now injection Hi as ->.
        -- specialize (Hmin 0%nat a (Nat.lt_0_succ i) eq_refl). congruence.
    + rewrite IH. split.
      * intros (i & Hi & Hpx & Hmin). exists (S i). repeat split; [assumption.. |].
        intros [|j] y Hj Hy.
        -- injection Hy as <-. assumption.
        -- apply (Hmin j y); [lia | assumption].
      * intros (i & Hi & Hpx & Hmin). destruct i as [|i].
        -- injection Hi as ->. congruence.
        -- exists i. repeat split; [assumption.. |].
           intros j y Hj Hy. apply (Hmin (S j) y); [lia | assumption].
Qed.

Lemma find_None_all {A} (p : A -> bool) (l : list A) :
  List.find p l = None <-> forall x, x ∈ l -> p x = false.
Proof.
  induction l as [|a l IH]; cbn [List.find].
  - split; [| reflexivity]. intros _ x Hx. now apply elem_of_nil in Hx.
  - destruct (p a) eqn:Hpa.
    + split; [discriminate |]. intros H. specialize (H a (list_elem_of_here a l)). congruence.
    + rewrite IH. split.
      * intros H x [->|Hx]%elem_of_cons; [assumption | now apply H].
      * intros H x Hx. apply H. now apply elem_of_cons; right.
Qed.

Lemma get_available_driver_run st :
  registry_valid st ->
  DriverManager_get_available_driver st =
    Some (Return (List.find (availableb (driver_heap st)) (drivers st)), st).
Proof.
  intros Hv. unfold DriverManager_get_available_driver, bind, gets.
  now apply first_available_find.
Qed.

(** C6: [get_available_driver] scans the registered drivers in registration
    order and returns the first one whose status is Available; it returns
    [None] exactly when no registered driver is Available.  The scan changes
    nothing. *)
Theorem get_available_driver_first (st : State) (Hv : registry_valid st) :
  exists found : option ref,
    DriverManager_get_available_driver st = Some (Return found, st) /\
    (forall d, found = Some d <->
       exists i, drivers st !! i = Some d /\
                 availableb (driver_heap st) d = true /\
                 forall j e, (j < i)%nat -> drivers st !! j = Some e ->
                             availableb (driver_heap st) e = false) /\
    (found = None <->
       forall d, d ∈ drivers st -> availableb (driver_heap st) d = false).
Proof.
  exists (List.find (availableb (driver_heap st)) (drivers st)).
  split; [now apply get_available_driver_run |].
  split; [intros d; apply find_Some_first | apply find_None_all].
Qed.

(** ** Assigning and completing on the driver *)

(** C8: [Driver.assign_ride] on a driver that is already Occupied fails with
    the not-available error ([ValueError]) and the state, so in particular
    the driver's status and current ride, is what it was; on an Available
    driver it sets the status to Occupied and stores the ride reference,
    touching no other object. *)
Theorem assign_ride_by_status (st : State) (d ride : ref) (o : Driver)
    (Hd : driver_heap st !! d = Some o) :
  match status o with
  | OCCUPIED =>
      Driver_assign_ride d ride st =
        Some (Raise (ValueError ("Driver " +:+ driver_name o +:+ " is not available")), st)
  | AVAILABLE =>
      exists st',
        Driver_assign_ride d ride st = Some (Return tt, st') /\
        driver_heap st' !! d = Some (mkDriver (driver_name o) OCCUPIED (Some ride)) /\
        (forall d', d' <> d -> driver_heap st' !! d' = driver_heap st !! d') /\
        customer_heap st' = customer_heap st /\
        ride_heap st' = ride_heap st /\
        drivers st' = drivers st /\
        customers st' = customers st /\
        stdout st' = stdout st
  end.
Proof.
  destruct (status o) eqn:Hs.
  - eexists. split; [exact (Driver_assign_ride_available st d ride o Hd Hs) |].
    heap_simpl.
    split; [lookup_updated |].
    split; [| repeat split].
    lookup_framed.
  - exact (Driver_assign_ride_occupied st d ride o Hd Hs).
Qed.

(** C10: completing a driver's ride resets the driver only (status back to
    Available, current ride cleared).  The ride heap is untouched, so the
    ride still names that driver and is still confirmed. *)
Theorem complete_ride_leaves_ride (st : State) (d r : ref) (o : Driver) (ro : Ride)
    (Hd : driver_heap st !! d = Some o)
    (Hcur : current_ride o = Some r)
    (Hr : ride_heap st !! r = Some ro)
    (Hback : driver ro = Some d)
    (Hconf : is_confirmed ro = true) :
  exists st',
    Driver_complete_ride d st = Some (Return tt, st') /\
    driver_heap st' !! d = Some (mkDriver (driver_name o) AVAILABLE None) /\
    (forall d', d' <> d -> driver_heap st' !! d' = driver_heap st !! d') /\
    ride_heap st' = ride_heap st /\
    customer_heap st' = customer_heap st /\
    drivers st' = drivers st /\
    customers st' = customers st /\
    stdout st' = stdout st /\
    exists ro',
      ride_heap st' !! r = Some ro' /\ ro' = ro /\
      driver ro' = Some d /\ is_confirmed ro' = true.
Proof.
  eexists. split; [exact (Driver_complete_ride_run st d o Hd) |].
  heap_simpl.
  split; [lookup_updated |].
  split; [lookup_framed |].
  repeat (split; [reflexivity |]).
  exists ro. auto.
Qed.

(** ** Assigning on the ride *)

Lemma insert_snoc {A} (l : list A) (x y : A) : (<[length l := y]> (l ++ [x]) = l ++ [y])%list.
Proof.
  replace (length l) with (length l + 0)%nat by lia.
  now rewrite insert_app_r.
Qed.

Lemma lookup_snoc {A} (l : list A) (x : A) : (l ++ [x])%list !! length l = Some x.
Proof. now rewrite list_lookup_middle. Qed.

Lemma Ride_assign_driver_available st r d ro o :
  ride_heap st !! r = Some ro ->
  driver_heap st !! d = Some o ->
  status o = AVAILABLE ->
  Ride_assign_driver r d st =
    Some (Return tt,
          mkState (<[d := mkDriver (driver_name o) OCCUPIED (Some r)]> (driver_heap st))
                  (customer_heap st)
                  (<[r := with_is_confirmed true (with_driver (Some d) ro)]> (ride_heap st))
                  (drivers st) (customers st) (stdout st)).
Proof.
  intros Hr Hd Hs. pose proof (lookup_lt_Some _ _ _ Hr) as Hlt.
  unfold Ride_assign_driver.
  rewrite (bind_Return _ _ _ _ _ (update_ride_run st r ro _ Hr)).
  erewrite bind_Return; [| apply (Driver_assign_ride_available _ d r o); [exact Hd | exact Hs]].
  unfold update_ride.
  heap_simpl.
  rewrite list_lookup_insert_eq by assumption.
  now rewrite list_insert_insert_eq.
Qed.

(** On an Occupied driver the exception leaves [self.driver] already set. *)
Lemma Ride_assign_driver_occupied st r d ro o :
  ride_heap st !! r = Some ro ->
  driver_heap st !! d = Some o ->
  status o = OCCUPIED ->
  Ride_assign_driver r d st =
    Some (Raise (ValueError ("Driver " +:+ driver_name o +:+ " is not available")),
          set_ride_heap (<[r := with_driver (Some d) ro]> (ride_heap st)) st).
Proof.
  intros Hr Hd Hs. unfold Ride_assign_driver.
  rewrite (bind_Return _ _ _ _ _ (update_ride_run st r ro _ Hr)).
  erewrite bind_Raise; [reflexivity |].
  now apply (Driver_assign_ride_occupied _ d r o).
Qed.

(** ** Booking *)

Lemma try_except_Return {A} (body : Py A) handler st a st' :
  body st = Some (Return a, st') ->
  try_except_ValueError body handler st = Some (Return a, st').
Proof. intros H. unfold try_except_ValueError. now rewrite H. Qed.

(** The three ways a booking ends, with the exact state reached. *)
Lemma book_ride_assigned st c pickup dropoff dist s policy cust d o :
  create_ride_type s = inr policy ->
  customer_heap st !! c = Some cust ->
  registry_valid st ->
  List.find (availableb (driver_heap st)) (drivers st) = Some d ->
  driver_heap st !! d = Some o ->
  RideBookingService_book_ride c pickup dropoff dist s st =
    Some (Return (Some (length (ride_heap st))),
          mkState
            (<[d := mkDriver (driver_name o) OCCUPIED (Some (length (ride_heap st)))]>
               (driver_heap st))
            (<[c := mkCustomer (customer_name cust)
                               (ride_history cust ++ [length (ride_heap st)])]>
               (customer_heap st))
            (ride_heap st ++
               [mkRide c pickup dropoff dist policy (calculate_fare policy dist) (Some d) true])
            (drivers st) (customers st) (stdout st)).
Proof.
  intros Hs Hc Hv Hfind Hd.
  assert (Hav : status o = AVAILABLE).
  { apply find_Some_first in Hfind as (_ & _ & Hav & _).
    unfold availableb in Hav. rewrite Hd in Hav. now apply DriverStatus_eqb_eq. }
  unfold RideBookingService_book_ride. apply try_except_Return.
  rewrite Hs. cbn [lift_exn].
  unfold bind at 1, ret at 1.
  unfold bind at 1, Ride_init, new_ride.
  set (r := length (ride_heap st)).
  set (ride0 := mkRide c pickup dropoff dist policy (calculate_fare policy dist) None false).
  erewrite bind_Return; [| apply get_available_driver_run; exact Hv].
  heap_simpl. rewrite Hfind.
  erewrite bind_Return;
    [| apply (Ride_assign_driver_available _ r d ride0 o);
       [apply lookup_snoc | exact Hd | exact Hav]].
  heap_simpl.
  erewrite bind_Return; [| apply (update_customer_run _ c cust); exact Hc].
  unfold ret, set_customer_heap.
  heap_simpl.
  subst r. now rewrite insert_snoc.
Qed.

Lemma book_ride_no_driver st c pickup dropoff dist s policy :
  create_ride_type s = inr policy ->
  registry_valid st ->
  List.find (availableb (driver_heap st)) (drivers st) = None ->
  RideBookingService_book_ride c pickup dropoff dist s st =
    Some (Return None,
          set_ride_heap
            (ride_heap st ++
               [mkRide c pickup dropoff dist policy (calculate_fare policy dist) None false])
            st).
Proof.
  intros Hs Hv Hfind.
  unfold RideBookingService_book_ride. apply try_except_Return.
  rewrite Hs. cbn [lift_exn].
  unfold bind at 1, ret at 1.
  unfold bind at 1, Ride_init, new_ride.
  erewrite bind_Return; [| apply get_available_driver_run; exact Hv].
  heap_simpl. now rewrite Hfind.
Qed.

Lemma book_ride_invalid st c pickup dropoff dist s msg :
  create_ride_type s = inl (ValueError msg) ->
  RideBookingService_book_ride c pickup dropoff dist s st =
    Some (Return None, set_stdout (stdout st ++ ["Error booking ride: " +:+ msg]) st).
Proof.
  intros Hs. unfold RideBookingService_book_ride, try_except_ValueError.
  rewrite Hs. reflexivity.
Qed.

(** The sample states are states of the program: the code reaches them. *)
Lemma st_registered_reached :
  register_all SwiftRideSystem_init = Some (Return tt, st_registered).
Proof. vm_compute. reflexivity. Qed.

Lemma st_one_booked_reached :
  book_john st_registered = Some (Return (Some 0%nat), st_one_booked).
Proof. vm_compute. reflexivity. Qed.

Lemma st_all_busy_reached :
  book_rebecca st_one_booked = Some (Return (Some 1%nat), st_all_busy).
Proof. vm_compute. reflexivity. Qed.

Lemma st_pending_reached :
  Ride_init 1%nat "College" "Downtown" 10 LuxuryRide st_one_booked =
    Some (Return 1%nat, st_pending).
Proof. vm_compute. reflexivity. Qed.

(** C1: with a valid category, a customer of the system and at least one
    registered driver Available, [book_ride] returns the new ride, appends
    exactly that one ride to the customer's history, leaves it confirmed and
    bound to the first driver (in registration order) that was Available,
    and makes that driver Occupied.  Nothing else changes. *)
Theorem book_ride_with_available_driver (st : State) (c : ref)
    (pickup dropoff : string) (dist : Z) (s : string) (policy : RideType)
    (cust : Customer)
    (Hs : create_ride_type s = inr policy)
    (Hc : customer_heap st !! c = Some cust)
    (Hv : registry_valid st)
    (Hsome : exists d, d ∈ drivers st /\ availableb (driver_heap st) d = true) :
  exists (r d : ref) (i : nat) (o : Driver) (st' : State),
    RideBookingService_book_ride c pickup dropoff dist s st = Some (Return (Some r), st') /\
    (* [d] is the first driver that was Available *)
    drivers st !! i = Some d /\
    driver_heap st !! d = Some o /\ status o = AVAILABLE /\
    (forall j e, (j < i)%nat -> drivers st !! j = Some e ->
                 availableb (driver_heap st) e = false) /\
    (* one ride more in this customer's history, and in no other *)
    customer_heap st' !! c =
      Some (mkCustomer (customer_name cust) (ride_history cust ++ [r])) /\
    (forall c', c' <> c -> customer_heap st' !! c' = customer_heap st !! c') /\
    (* the ride is a new object, confirmed and bound to [d] *)
    ride_heap st !! r = None /\
    ride_heap st' !! r =
      Some (mkRide c pickup dropoff dist policy (calculate_fare policy dist) (Some d) true) /\
    (forall r', r' <> r -> ride_heap st' !! r' = ride_heap st !! r') /\
    (* [d] is now Occupied with this ride, the other drivers are as before *)
    driver_heap st' !! d = Some (mkDriver (driver_name o) OCCUPIED (Some r)) /\
    (forall d', d' <> d -> driver_heap st' !! d' = driver_heap st !! d') /\
    drivers st' = drivers st /\
    customers st' = customers st /\
    stdout st' = stdout st.
Proof.
  destruct (List.find (availableb (driver_heap st)) (drivers st)) as [d|] eqn:Hfind.
  2:{ destruct Hsome as (d & Hin & Hav).
      rewrite (proj1 (find_None_all _ _) Hfind d Hin) in Hav. discriminate. }
  pose proof (proj1 (find_Some_first _ _ _) Hfind) as (i & Hi & Hav & Hmin).
  destruct (driver_heap st !! d) as [o|] eqn:Hd;
    [| unfold availableb in Hav; rewrite Hd in Hav; discriminate].
  assert (Hso : status o = AVAILABLE).
  { unfold availableb in Hav. rewrite Hd in Hav. now apply DriverStatus_eqb_eq. }
  exists (length (ride_heap st)), d, i, o. eexists.
  split; [exact (book_ride_assigned st c pickup dropoff dist s policy cust d o Hs Hc Hv Hfind Hd) |].
  heap_simpl.
  repeat match goal with |- _ /\ _ => split end; try reflexivity; try assumption.
  - lookup_updated.
  - lookup_framed.
  - now apply lookup_ge_None_2.
  - apply lookup_snoc.
  - intros r' Hne. destruct (Nat.lt_ge_cases r' (length (ride_heap st))) as [Hlt|Hge].
    + now apply lookup_app_l.
    + rewrite (lookup_ge_None_2 (ride_heap st)) by assumption.
      apply lookup_ge_None_2. rewrite length_app. cbn [length]. lia.
  - lookup_updated.
  - lookup_framed.
Qed.

(** C5: with a valid category and no registered driver Available,
    [book_ride] returns [None]; no customer's history and no driver changes.
    The ride built during the attempt is left as an object that nothing
    refers to: it is neither returned nor stored. *)
Theorem book_ride_without_driver (st : State) (c : ref)
    (pickup dropoff : string) (dist : Z) (s : string) (policy : RideType)
    (Hs : create_ride_type s = inr policy)
    (Hv : registry_valid st)
    (Hclosed : rides_closed st = true)
    (Hnone : forall d, d ∈ drivers st -> availableb (driver_heap st) d = false) :
  exists st',
    RideBookingService_book_ride c pickup dropoff dist s st = Some (Return None, st') /\
    customer_heap st' = customer_heap st /\
    driver_heap st' = driver_heap st /\
    drivers st' = drivers st /\
    customers st' = customers st /\
    stdout st' = stdout st /\
    ride_heap st' =
      (ride_heap st ++
         [mkRide c pickup dropoff dist policy (calculate_fare policy dist) None false])%list /\
    ~ ride_referenced st' (length (ride_heap st)).
Proof.
  eexists. split.
  { apply (book_ride_no_driver st c pickup dropoff dist s policy Hs Hv).
    now apply find_None_all. }
  heap_simpl.
  repeat (split; [reflexivity |]).
  unfold rides_closed in Hclosed. apply andb_prop in Hclosed as [Hhist Hcur].
  rewrite forallb_forall in Hhist, Hcur.
  intros [(c' & o & Hc' & Hin) | (d & o & Hd & Hr)];
    cbn [driver_heap customer_heap] in *.
  - apply list_elem_of_lookup_2, list_elem_of_In in Hc'.
    specialize (Hhist o Hc'). rewrite forallb_forall in Hhist.
    apply list_elem_of_In in Hin. specialize (Hhist _ Hin).
    apply Nat.ltb_lt in Hhist. lia.
  - apply list_elem_of_lookup_2, list_elem_of_In in Hd.
    specialize (Hcur o Hd). rewrite Hr in Hcur.
    apply Nat.ltb_lt in Hcur. lia.
Qed.

(** C4: with an unrecognized category, the invalid-category error is caught
    inside [book_ride]: the line
    ["Error booking ride: Invalid ride type: <input as given>"] is printed,
    [None] is returned, and nothing but the output changes: no history and
    no driver.  The returned value is the same as that of any booking that
    fails for lack of a driver. *)
Theorem book_ride_invalid_category (st : State) (c : ref)
    (pickup dropoff : string) (dist : Z) (s : string)
    (Hs : recognized s = false) :
  RideBookingService_book_ride c pickup dropoff dist s st =
    Some (Return None,
          set_stdout (stdout st ++ ["Error booking ride: Invalid ride type: " +:+ s]) st) /\
  customer_heap
    (set_stdout (stdout st ++ ["Error booking ride: Invalid ride type: " +:+ s]) st) =
    customer_heap st /\
  driver_heap
    (set_stdout (stdout st ++ ["Error booking ride: Invalid ride type: " +:+ s]) st) =
    driver_heap st /\
  forall (st2 : State) (c2 : ref) (pickup2 dropoff2 : string) (dist2 : Z)
         (s2 : string) (policy2 : RideType),
    create_ride_type s2 = inr policy2 ->
    registry_valid st2 ->
    (forall d, d ∈ drivers st2 -> availableb (driver_heap st2) d = false) ->
    fst <$> RideBookingService_book_ride c2 pickup2 dropoff2 dist2 s2 st2 =
    fst <$> RideBookingService_book_ride c pickup dropoff dist s st.
Proof.
  assert (Hrun : RideBookingService_book_ride c pickup dropoff dist s st =
    Some (Return None,
          set_stdout (stdout st ++ ["Error booking ride: Invalid ride type: " +:+ s]) st)).
  { apply book_ride_invalid. rewrite create_ride_type_refines. unfold create_spec.
    unfold recognized in Hs.
    apply orb_false_elim in Hs as [Hs Hp]. apply orb_false_elim in Hs as [He Hl].
    now rewrite He, Hl, Hp. }
  split; [exact Hrun |]. split; [reflexivity |]. split; [reflexivity |].
  intros st2 c2 pickup2 dropoff2 dist2 s2 policy2 Hs2 Hv2 Hnone2.
  rewrite Hrun.
  rewrite (book_ride_no_driver st2 c2 pickup2 dropoff2 dist2 s2 policy2 Hs2 Hv2);
    [reflexivity |].
  now apply find_None_all.
Qed.

(** ** The ride invariant *)

(** A ride satisfies the invariant when it is built. *)
Lemma Ride_init_invariant st c pickup dropoff dist policy :
  exists r st' o,
    Ride_init c pickup dropoff dist policy st = Some (Return r, st') /\
    ride_heap st' !! r = Some o /\ ride_invariant o.
Proof.
  eexists _, _, _. split; [reflexivity |].
  heap_simpl. split; [apply lookup_snoc |].
  unfold ride_invariant. cbn [is_confirmed driver]. split; [discriminate |].
  intros [x Hx]. discriminate.
Qed.

(** Assigning an Available driver keeps it, whatever the ride was before. *)
Lemma Ride_assign_driver_available_invariant st r d ro o :
  ride_heap st !! r = Some ro ->
  driver_heap st !! d = Some o ->
  status o = AVAILABLE ->
  exists st' ro',
    Ride_assign_driver r d st = Some (Return tt, st') /\
    ride_heap st' !! r = Some ro' /\ ride_invariant ro'.
Proof.
  intros Hr Hd Hs. eexists _, _.
  split; [exact (Ride_assign_driver_available st r d ro o Hr Hd Hs) |].
  cbn [ride_heap].
  split; [lookup_updated |].
  unfold ride_invariant. cbn [is_confirmed driver with_is_confirmed with_driver].
  split; [eauto | reflexivity].
Qed.

(** Assigning an Occupied driver to a ride that has none breaks it: the
    driver field is written before the driver refuses. *)
Lemma Ride_assign_driver_occupied_invariant st r d ro o :
  ride_heap st !! r = Some ro ->
  is_confirmed ro = false ->
  driver_heap st !! d = Some o ->
  status o = OCCUPIED ->
  exists e st' ro',
    Ride_assign_driver r d st = Some (Raise e, st') /\
    ride_heap st' !! r = Some ro' /\
    driver ro' = Some d /\ is_confirmed ro' = false /\ ~ ride_invariant ro'.
Proof.
  intros Hr Hconf Hd Hs. eexists _, _, _.
  split; [exact (Ride_assign_driver_occupied st r d ro o Hr Hd Hs) |].
  heap_simpl.
  split; [lookup_updated |].
  cbn [is_confirmed driver with_driver].
  split; [reflexivity |]. split; [assumption |].
  unfold ride_invariant. cbn [is_confirmed driver with_driver]. intros [_ H].
  rewrite Hconf in H. specialize (H (ex_intro _ d eq_refl)). discriminate.
Qed.

(** C7: the invariant "confirmed exactly when a driver is set" holds for the
    freshly built ride 1 of [st_pending], and [Ride.assign_driver] with the
    Occupied driver Alice raises and leaves that ride with its driver set and
    not confirmed: the invariant does not survive this call. *)
Theorem assign_driver_on_occupied_driver :
  exists (o o' : Ride) (st' : State),
    ride_heap st_pending !! 1%nat = Some o /\ ride_invariant o /\
    Ride_assign_driver 1 0 st_pending =
      Some (Raise (ValueError "Driver Alice is not available"), st') /\
    ride_heap st' !! 1%nat = Some o' /\
    driver o' = Some 0%nat /\ is_confirmed o' = false /\
    ~ ride_invariant o'.
Proof.
  eexists _, _, _.
  split; [reflexivity |].
  split.
  { unfold ride_invariant. cbn [is_confirmed driver]. split; [discriminate |].
    intros [x Hx]. discriminate. }
  split; [vm_compute; reflexivity |].
  split; [reflexivity |].
  split; [reflexivity |]. split; [reflexivity |].
  unfold ride_invariant. cbn [is_confirmed driver]. intros [_ H].
  specialize (H (ex_intro _ 0%nat eq_refl)). discriminate.
Qed.

(** ** The demo *)

(** C9: [main] registers Alice then Bob and books (15, Economy),
    (10, Luxury), (5, Pool) in that order.  It prints fare 75 with driver
    Alice, then fare 100 with driver Bob, then "No drivers available.";
    the first two rides are in the heap with these fares and drivers, and the
    third customer's history is still empty. *)
Theorem main_run :
  exists st : State,
    main SwiftRideSystem_init = Some (Return tt, st) /\
    stdout st =
      ["=== SwiftRide System Test ===" +:+ nl;
       "Task 6:"; "Ride Fare: $75, Driver: Alice";
       nl +:+ "Task 7:"; "Ride Fare: $100, Driver: Bob";
       nl +:+ "Task 8:"; "No drivers available."] /\
    drivers st = [0; 1]%nat /\
    driver_heap st =
      [mkDriver "Alice" OCCUPIED (Some 0%nat); mkDriver "Bob" OCCUPIED (Some 1%nat)] /\
    ride_heap st !! 0%nat =
      Some (mkRide 0 "Airport" "Downtown" 15 EconomyRide 75 (Some 0%nat) true) /\
    ride_heap st !! 1%nat =
      Some (mkRide 1 "College" "Downtown" 10 LuxuryRide 100 (Some 1%nat) true) /\
    customer_heap st =
      [mkCustomer "John" [0%nat]; mkCustomer "Rebecca" [1%nat]; mkCustomer "Mike" []] /\
    ~ ride_referenced st 2.
Proof.
  eexists. split; [vm_compute; reflexivity |].
  repeat (split; [reflexivity |]).
  intros [(c & o & Hc & Hin) | (d & o & Hd & Hr)];
    cbn [driver_heap customer_heap] in *.
  - destruct c as [|[|[|c]]]; cbn in Hc; try discriminate;
      injection Hc as <-; cbn [ride_history] in Hin;
      repeat (apply elem_of_cons in Hin as [Hin|Hin]; [discriminate |]);
      now apply elem_of_nil in Hin.
  - destruct d as [|[|d]]; cbn in Hd; try discriminate;
      injection Hd as <-; discriminate.
Qed.

(** ** The theorems at states of the demo *)

Lemma st_one_booked_valid : registry_valid st_one_booked.
Proof.
  unfold registry_valid. cbn [drivers st_one_booked].
  repeat (apply List.Forall_cons; [eexists; reflexivity |]). apply List.Forall_nil.
Defined.

Lemma st_registered_valid : registry_valid st_registered.
Proof.
  unfold registry_valid. cbn [drivers st_registered].
  repeat (apply List.Forall_cons; [eexists; reflexivity |]). apply List.Forall_nil.
Defined.

Lemma st_all_busy_valid : registry_valid st_all_busy.
Proof.
  unfold registry_valid. cbn [drivers st_all_busy].
  repeat (apply List.Forall_cons; [eexists; reflexivity |]). apply List.Forall_nil.
Defined.

Lemma st_all_busy_none_available :
  forall d, d ∈ drivers st_all_busy -> availableb (driver_heap st_all_busy) d = false.
Proof.
  intros d Hin. cbn [drivers st_all_busy] in Hin.
  apply elem_of_cons in Hin as [->|Hin]; [reflexivity |].
  apply elem_of_cons in Hin as [->|Hin]; [reflexivity |].
  now apply elem_of_nil in Hin.
Defined.

(** With Alice busy and Bob idle, the scan passes over Alice and returns
    Bob. *)
Lemma get_available_driver_first_witness :
  registry_valid st_one_booked /\
  DriverManager_get_available_driver st_one_booked =
    Some (Return (Some 1%nat), st_one_booked).
Proof.
  split; [exact st_one_booked_valid |].
  destruct (get_available_driver_first st_one_booked st_one_booked_valid)
    as (found & Hrun & Hsome & _).
  rewrite Hrun. do 3 f_equal. apply Hsome.
  exists 1%nat. split; [reflexivity |]. split; [reflexivity |].
  intros [|j] e Hj He; [| lia]. injection He as <-. reflexivity.
Defined.

(** Alice is busy with ride 0 and refuses ride 1. *)
Lemma assign_ride_by_status_witness :
  driver_heap st_one_booked !! 0%nat = Some (mkDriver "Alice" OCCUPIED (Some 0%nat)) /\
  Driver_assign_ride 0 1 st_one_booked =
    Some (Raise (ValueError "Driver Alice is not available"), st_one_booked).
Proof.
  split; [reflexivity |].
  exact (assign_ride_by_status st_one_booked 0 1
           (mkDriver "Alice" OCCUPIED (Some 0%nat)) eq_refl).
Defined.

(** Bob completes ride 1; the ride keeps him as its driver. *)
Lemma complete_ride_leaves_ride_witness :
  (driver_heap st_all_busy !! 1%nat = Some (mkDriver "Bob" OCCUPIED (Some 1%nat)) /\
   ride_heap st_all_busy !! 1%nat =
     Some (mkRide 1 "College" "Downtown" 10 LuxuryRide 100 (Some 1%nat) true)) /\
  exists st',
    Driver_complete_ride 1 st_all_busy = Some (Return tt, st') /\
    driver_heap st' !! 1%nat = Some (mkDriver "Bob" AVAILABLE None) /\
    ride_heap st' !! 1%nat =
      Some (mkRide 1 "College" "Downtown" 10 LuxuryRide 100 (Some 1%nat) true).
Proof.
  split; [split; reflexivity |].
  destruct (complete_ride_leaves_ride st_all_busy 1 1
              (mkDriver "Bob" OCCUPIED (Some 1%nat))
              (mkRide 1 "College" "Downtown" 10 LuxuryRide 100 (Some 1%nat) true)
              eq_refl eq_refl eq_refl eq_refl eq_refl)
    as (st' & Hrun & Hdrv & _ & _ & _ & _ & _ & _ & ro' & Hro' & -> & _).
  exists st'. auto.
Defined.

(** John's booking in the demo. *)
Lemma book_ride_with_available_driver_witness :
  (create_ride_type "Economy" = inr EconomyRide /\
   customer_heap st_registered !! 0%nat = Some (mkCustomer "John" []) /\
   registry_valid st_registered /\
   exists d, d ∈ drivers st_registered /\ availableb (driver_heap st_registered) d = true) /\
  exists r st',
    RideBookingService_book_ride 0 "Airport" "Downtown" 15 "Economy" st_registered =
      Some (Return (Some r), st') /\
    customer_heap st' !! 0%nat = Some (mkCustomer "John" [r]).
Proof.
  assert (Hsome : exists d, d ∈ drivers st_registered /\
                            availableb (driver_heap st_registered) d = true).
  { exists 0%nat. split; [apply list_elem_of_here | reflexivity]. }
  assert (Hs : create_ride_type "Economy" = inr EconomyRide) by (vm_compute; reflexivity).
  split;
    [split; [exact Hs |];
     split; [reflexivity |];
     split; [exact st_registered_valid | exact Hsome] |].
  destruct (book_ride_with_available_driver st_registered 0 "Airport" "Downtown" 15
              "Economy" EconomyRide (mkCustomer "John" [])
              Hs eq_refl st_registered_valid Hsome)
    as (r & d & i & o & st' & Hrun & _ & _ & _ & _ & Hhist & _).
  exists r, st'. split; [exact Hrun | exact Hhist].
Defined.

(** Mike's booking in the demo. *)
Lemma book_ride_without_driver_witness :
  (create_ride_type "Pool" = inr PoolRide /\
   registry_valid st_all_busy /\
   rides_closed st_all_busy = true /\
   forall d, d ∈ drivers st_all_busy -> availableb (driver_heap st_all_busy) d = false) /\
  exists st',
    RideBookingService_book_ride 2 "Downtown" "Shopping Mall" 5 "Pool" st_all_busy =
      Some (Return None, st') /\
    customer_heap st' = customer_heap st_all_busy /\
    driver_heap st' = driver_heap st_all_busy.
Proof.
  assert (Hs : create_ride_type "Pool" = inr PoolRide) by (vm_compute; reflexivity).
  split;
    [split; [exact Hs |];
     split; [exact st_all_busy_valid |];
     split; [reflexivity | exact st_all_busy_none_available] |].
  destruct (book_ride_without_driver st_all_busy 2 "Downtown" "Shopping Mall" 5
              "Pool" PoolRide Hs st_all_busy_valid eq_refl st_all_busy_none_available)
    as (st' & Hrun & Hcust & Hdrv & _).
  exists st'. auto.
Defined.

(** A category that does not exist. *)
Lemma book_ride_invalid_category_witness :
  recognized "Premium" = false /\
  RideBookingService_book_ride 0 "Airport" "Downtown" 15 "Premium" st_registered =
    Some (Return None,
          set_stdout ["Error booking ride: Invalid ride type: Premium"] st_registered).
Proof.
  split; [reflexivity |].
  exact (proj1 (book_ride_invalid_category st_registered 0 "Airport" "Downtown" 15
                  "Premium" eq_refl)).
Defined.

(** ** Well-formedness is an invariant of the system *)

Lemma rides_closed_spec st :
  rides_closed st = true <->
  forall r, ride_referenced st r -> (r < length (ride_heap st))%nat.
Proof.
  unfold rides_closed. rewrite andb_true_iff, !forallb_forall. split.
  - intros [Hhist Hcur] r [(c & o & Hc & Hin) | (d & o & Hd & Hr)].
    + apply list_elem_of_lookup_2, list_elem_of_In in Hc.
      specialize (Hhist o Hc). rewrite forallb_forall in Hhist.
      apply list_elem_of_In in Hin. now apply Nat.ltb_lt, Hhist.
    + apply list_elem_of_lookup_2, list_elem_of_In in Hd.
      specialize (Hcur o Hd). rewrite Hr in Hcur. now apply Nat.ltb_lt.
  - intros H. split.
    + intros o Ho. apply forallb_forall. intros r Hr. apply Nat.ltb_lt, H.
      apply list_elem_of_In, list_elem_of_lookup_1 in Ho as [c Hc].
      left. exists c, o. split; [assumption | now apply list_elem_of_In].
    + intros o Ho. destruct (current_ride o) as [r|] eqn:Hr; [| reflexivity].
      apply Nat.ltb_lt, H.
      apply list_elem_of_In, list_elem_of_lookup_1 in Ho as [d Hd].
      right. exists d, o. split; assumption.
Qed.

(** Well-formedness looks at the heaps and the registry only. *)
Lemma well_formed_same_heaps st st' :
  driver_heap st' = driver_heap st ->
  customer_heap st' = customer_heap st ->
  ride_heap st' = ride_heap st ->
  drivers st' = drivers st ->
  well_formed st -> well_formed st'.
Proof.
  intros Hd Hc Hr Hl [Hv Hcl].
  unfold well_formed, registry_valid, rides_closed in *.
  now rewrite Hd, Hc, Hr, Hl.
Qed.

Lemma create_ride_type_inl s e :
  create_ride_type s = inl e -> e = ValueError ("Invalid ride type: " +:+ s).
Proof.
  unfold create_ride_type. destruct (ride_types !! lower s); congruence.
Qed.

(** A booking for a customer that is not in the heap has no outcome. *)
Lemma book_ride_unknown_customer st c pickup dropoff dist s policy d o :
  create_ride_type s = inr policy ->
  customer_heap st !! c = None ->
  registry_valid st ->
  List.find (availableb (driver_heap st)) (drivers st) = Some d ->
  driver_heap st !! d = Some o ->
  RideBookingService_book_ride c pickup dropoff dist s st = None.
Proof.
  intros Hs Hc Hv Hfind Hd.
  assert (Hav : status o = AVAILABLE).
  { apply find_Some_first in Hfind as (_ & _ & Hav & _).
    unfold availableb in Hav. rewrite Hd in Hav. now apply DriverStatus_eqb_eq. }
  unfold RideBookingService_book_ride, try_except_ValueError.
  rewrite Hs. cbn [lift_exn].
  unfold bind at 1, ret at 1.
  unfold bind at 1, Ride_init, new_ride.
  erewrite bind_Return; [| apply get_available_driver_run; exact Hv].
  heap_simpl. rewrite Hfind.
  erewrite bind_Return;
    [| eapply (Ride_assign_driver_available _ (length (ride_heap st)) d);
       [apply lookup_snoc | exact Hd | exact Hav]].
  heap_simpl. unfold bind, update_customer. heap_simpl. now rewrite Hc.
Qed.

Lemma find_Some_valid st d :
  registry_valid st ->
  List.find (availableb (driver_heap st)) (drivers st) = Some d ->
  exists o, driver_heap st !! d = Some o.
Proof.
  intros _ Hfind. apply find_Some_first in Hfind as (_ & _ & Hav & _).
  unfold availableb in Hav. destruct (driver_heap st !! d) as [o|]; [eauto | discriminate].
Qed.

Lemma book_ride_well_formed st c pickup dropoff dist s out st' :
  well_formed st ->
  RideBookingService_book_ride c pickup dropoff dist s st = Some (out, st') ->
  well_formed st' /\ exists r, out = Return r.
Proof.
  intros [Hv Hcl] Hrun.
  destruct (create_ride_type s) as [e|policy] eqn:Hs.
  { (* the category is not recognized: only the output changes *)
    pose proof (create_ride_type_inl s e Hs) as ->.
    rewrite (book_ride_invalid st c pickup dropoff dist s _ Hs) in Hrun.
    injection Hrun as <- <-. split; [| eauto].
    apply (well_formed_same_heaps st); try reflexivity. now split. }
  destruct (List.find (availableb (driver_heap st)) (drivers st)) as [d|] eqn:Hfind.
  2:{ (* no driver: one unreferenced ride more *)
    rewrite (book_ride_no_driver st c pickup dropoff dist s policy Hs Hv Hfind) in Hrun.
    injection Hrun as <- <-. split; [| eauto]. split; [exact Hv |].
    apply rides_closed_spec. intros r Href. heap_simpl.
    rewrite length_app. cbn [length].
    enough (r < length (ride_heap st))%nat by lia.
    apply (proj1 (rides_closed_spec st) Hcl). exact Href. }
  destruct (find_Some_valid st d Hv Hfind) as [o Hd].
  destruct (customer_heap st !! c) as [cust|] eqn:Hc.
  2:{ rewrite (book_ride_unknown_customer st c pickup dropoff dist s policy d o
                 Hs Hc Hv Hfind Hd) in Hrun. discriminate. }
  rewrite (book_ride_assigned st c pickup dropoff dist s policy cust d o
             Hs Hc Hv Hfind Hd) in Hrun.
  injection Hrun as <- <-. split; [| eauto]. split.
  - (* the registry still points into the driver heap *)
    unfold registry_valid in *. heap_simpl.
    eapply Forall_impl; [exact Hv |]. intros d' Hd'. cbn beta in *.
    apply lookup_lt_is_Some. rewrite length_insert. now apply lookup_lt_is_Some.
  - apply rides_closed_spec. intros r Href. heap_simpl.
    rewrite length_app. cbn [length].
    pose proof (proj1 (rides_closed_spec st) Hcl) as Hold.
    destruct Href as [(c' & o' & Hc' & Hin) | (d' & o' & Hd' & Hr)]; heap_simpl.
    + cbn [customer_heap] in Hc'.
      apply list_lookup_insert_Some in Hc' as [(<- & <- & _) | (_ & Hc')].
      * cbn [ride_history] in Hin. apply elem_of_app in Hin as [Hin|Hin].
        -- enough (r < length (ride_heap st))%nat by lia.
           apply Hold. left. eauto.
        -- apply list_elem_of_singleton in Hin. lia.
      * enough (r < length (ride_heap st))%nat by lia.
        apply Hold. left. eauto.
    + cbn [driver_heap] in Hd'.
      apply list_lookup_insert_Some in Hd' as [(<- & <- & _) | (_ & Hd')].
      * cbn [current_ride] in Hr. injection Hr as <-. lia.
      * enough (r < length (ride_heap st))%nat by lia.
        apply Hold. right. eauto.
Qed.

(** The facade adds printing to the booking and changes no object. *)
Lemma facade_book_ride_heaps st c pickup dropoff dist s out st' :
  SwiftRideSystem_book_ride c pickup dropoff dist s st = Some (out, st') ->
  exists res st1,
    RideBookingService_book_ride c pickup dropoff dist s st = Some (res, st1) /\
    driver_heap st' = driver_heap st1 /\
    customer_heap st' = customer_heap st1 /\
    ride_heap st' = ride_heap st1 /\
    drivers st' = drivers st1.
Proof.
  unfold SwiftRideSystem_book_ride. unfold bind at 1.
  destruct (RideBookingService_book_ride c pickup dropoff dist s st)
    as [[[[r|]|e] st1]|]; [| | | discriminate].
  - unfold bind, load, lift_exn, print, modify, raise, ret.
    intros H. exists (Return (Some r)), st1. split; [reflexivity |].
    destruct (ride_heap st1 !! r) as [o|]; [| discriminate].
    destruct (format_0f (fare o)) as [e|text]; [now injection H as <- <- |].
    destruct (driver o) as [d|]; [| now injection H as <- <-].
    destruct (driver_heap st1 !! d) as [dr|]; [| discriminate].
    now injection H as <- <-.
  - intros H. exists (Return None), st1. split; [reflexivity |].
    now injection H as <- <-.
  - intros H. exists (Raise e), st1. split; [reflexivity |].
    now injection H as <- <-.
Qed.

Lemma init_well_formed : well_formed SwiftRideSystem_init.
Proof. split; [apply List.Forall_nil | reflexivity]. Qed.

Lemma add_driver_well_formed st name d st' :
  well_formed st ->
  SwiftRideSystem_add_driver name st = Some (Return d, st') ->
  well_formed st' /\
  d = length (driver_heap st) /\
  drivers st' = (drivers st ++ [d])%list /\
  driver_heap st' !! d = Some (mkDriver name AVAILABLE None).
Proof.
  intros [Hv Hcl] H. injection H as <- <-. heap_simpl.
  split; [| split; [reflexivity | split; [reflexivity | apply lookup_snoc]]].
  split.
  - unfold registry_valid in *. heap_simpl. apply Forall_app. split.
    + eapply Forall_impl; [exact Hv |]. intros d' [o Ho]. cbn beta.
      exists o. now apply lookup_app_l_Some.
    + apply Forall_singleton. eexists. apply lookup_snoc.
  - apply rides_closed_spec. intros r Href. heap_simpl.
    apply (proj1 (rides_closed_spec st) Hcl).
    destruct Href as [(c' & o' & Hc' & Hin) | (d' & o' & Hd' & Hr)].
    + left. eauto.
    + cbn [driver_heap] in Hd'.
      apply lookup_app_Some in Hd' as [Hd' | [_ Hd']]; [right; eauto |].
      apply list_lookup_singleton_Some in Hd' as [_ <-]. discriminate.
Qed.

Lemma add_customer_well_formed st name c st' :
  well_formed st ->
  SwiftRideSystem_add_customer name st = Some (Return c, st') ->
  well_formed st' /\
  customer_heap st' !! c = Some (mkCustomer name []).
Proof.
  intros [Hv Hcl] H. injection H as <- <-. heap_simpl.
  split; [| apply lookup_snoc].
  split; [exact Hv |].
  apply rides_closed_spec. intros r Href. heap_simpl.
  apply (proj1 (rides_closed_spec st) Hcl).
  destruct Href as [(c' & o' & Hc' & Hin) | (d' & o' & Hd' & Hr)].
  - cbn [customer_heap] in Hc'.
    apply lookup_app_Some in Hc' as [Hc' | [_ Hc']]; [left; eauto |].
    apply list_lookup_singleton_Some in Hc' as [_ <-].
    now apply elem_of_nil in Hin.
  - right. eauto.
Qed.

Lemma step_well_formed st st' : well_formed st -> step st st' -> well_formed st'.
Proof.
  intros Hwf [name d H | name c H | c pickup dropoff dist s out H].
  - exact (proj1 (add_driver_well_formed st name d st' Hwf H)).
  - exact (proj1 (add_customer_well_formed st name c st' Hwf H)).
  - apply facade_book_ride_heaps in H as (res & st1 & Hbook & Hd & Hc & Hr & Hl).
    apply (well_formed_same_heaps st1); try assumption.
    exact (proj1 (book_ride_well_formed st c pickup dropoff dist s res st1 Hwf Hbook)).
Qed.

(** Every state that calls of the facade lead to from a new system is
    well-formed: the hypotheses of the theorems on booking hold there. *)
Lemma reachable_well_formed st : reachable st -> well_formed st.
Proof.
  unfold reachable. revert st. apply rtc_ind_r.
  - exact init_well_formed.
  - intros st1 st2 _ Hstep IH. exact (step_well_formed st1 st2 IH Hstep).
Qed.

(** The booking service itself never lets an exception out of a
    well-formed state. *)
Lemma book_ride_never_raises st c pickup dropoff dist s e st' :
  well_formed st ->
  RideBookingService_book_ride c pickup dropoff dist s st <> Some (Raise e, st').
Proof.
  intros Hwf H.
  destruct (book_ride_well_formed st c pickup dropoff dist s _ st' Hwf H) as [_ [r Hr]].
  discriminate.
Qed.

(** * Further properties of the code *)

(** ** The outcomes of a booking *)

Lemma book_ride_cases st c pickup dropoff dist s res st1 :
  registry_valid st ->
  RideBookingService_book_ride c pickup dropoff dist s st = Some (res, st1) ->
  (create_ride_type s = inl (ValueError ("Invalid ride type: " +:+ s)) /\
   res = Return None /\
   st1 = set_stdout (stdout st ++ ["Error booking ride: Invalid ride type: " +:+ s]) st) \/
  (exists policy,
     create_ride_type s = inr policy /\
     List.find (availableb (driver_heap st)) (drivers st) = None /\
     res = Return None /\
     st1 = dropped_state st c pickup dropoff dist policy) \/
  (exists policy cust d o,
     create_ride_type s = inr policy /\
     customer_heap st !! c = Some cust /\
     List.find (availableb (driver_heap st)) (drivers st) = Some d /\
     driver_heap st !! d = Some o /\ status o = AVAILABLE /\
     res = Return (Some (length (ride_heap st))) /\
     st1 = booked_state st c pickup dropoff dist policy cust d o).
Proof.
  intros Hv Hrun.
  destruct (create_ride_type s) as [e|policy] eqn:Hs.
  { pose proof (create_ride_type_inl s e Hs) as ->.
    rewrite (book_ride_invalid st c pickup dropoff dist s _ Hs) in Hrun.
    injection Hrun as <- <-. left. auto. }
  right.
  destruct (List.find (availableb (driver_heap st)) (drivers st)) as [d|] eqn:Hfind.
  2:{ rewrite (book_ride_no_driver st c pickup dropoff dist s policy Hs Hv Hfind) in Hrun.
      injection Hrun as <- <-. left. exists policy. auto. }
  destruct (find_Some_valid st d Hv Hfind) as [o Hd].
  destruct (customer_heap st !! c) as [cust|] eqn:Hc.
  2:{ rewrite (book_ride_unknown_customer st c pickup dropoff dist s policy d o
                 Hs Hc Hv Hfind Hd) in Hrun. discriminate. }
  rewrite (book_ride_assigned st c pickup dropoff dist s policy cust d o
             Hs Hc Hv Hfind Hd) in Hrun.
  injection Hrun as <- <-. right. exists policy, cust, d, o.
  assert (Hav : status o = AVAILABLE).
  { apply find_Some_first in Hfind as (_ & _ & Hav & _).
    unfold availableb in Hav. rewrite Hd in Hav. now apply DriverStatus_eqb_eq. }
  repeat match goal with |- _ /\ _ => split end; first [assumption | reflexivity].
Qed.

(** [st_client] is a state of a client. *)
Lemma st_client_reachable : client_reachable st_client.
Proof.
  unfold client_reachable.
  eapply rtc_l;
    [apply client_facade, (step_add_driver _ _ "Alice" 0%nat); vm_compute; reflexivity |].
  eapply rtc_l;
    [apply client_facade, (step_add_driver _ _ "Bob" 1%nat); vm_compute; reflexivity |].
  eapply rtc_l;
    [apply client_facade, (step_add_customer _ _ "John" 0%nat); vm_compute; reflexivity |].
  eapply rtc_l;
    [apply client_facade,
       (step_book_ride _ _ 0%nat "Airport" "Downtown" 15 "Economy" (Return tt));
     vm_compute; reflexivity |].
  apply rtc_refl.
Defined.

(** ** Consistency is an invariant of every client *)

Ltac split_conj := repeat match goal with |- _ /\ _ => split end.

Lemma consistent_same_heaps st st' :
  driver_heap st' = driver_heap st ->
  customer_heap st' = customer_heap st ->
  ride_heap st' = ride_heap st ->
  drivers st' = drivers st ->
  customers st' = customers st ->
  consistent st -> consistent st'.
Proof.
  intros Hd Hc Hr Hl Hcs [Hwf Hreg Hcus Hdrv Hrid Hhis].
  constructor.
  - now apply (well_formed_same_heaps st).
  - now rewrite Hl, Hd.
  - now rewrite Hcs, Hc.
  - intros d o. rewrite Hd. intros H. specialize (Hdrv d o H).
    unfold driver_consistent in *. now rewrite Hr.
  - intros r ro. rewrite Hr. intros H. specialize (Hrid r ro H).
    unfold ride_consistent in *. now rewrite Hd.
  - intros c o. rewrite Hc. intros H. specialize (Hhis c o H).
    unfold history_consistent in *. now rewrite Hr.
Qed.

Lemma consistent_init : consistent SwiftRideSystem_init.
Proof.
  constructor; try reflexivity.
  - exact init_well_formed.
  - intros d o H. apply lookup_lt_Some in H. cbn in H. lia.
  - intros r ro H. apply lookup_lt_Some in H. cbn in H. lia.
  - intros c o H. apply lookup_lt_Some in H. cbn in H. lia.
Qed.

Lemma consistent_add_driver st name d st' :
  consistent st ->
  SwiftRideSystem_add_driver name st = Some (Return d, st') ->
  consistent st'.
Proof.
  intros [Hwf Hreg Hcus Hdrv Hrid Hhis] Hrun.
  pose proof (add_driver_well_formed st name d st' Hwf Hrun) as (Hwf' & _).
  injection Hrun as <- <-.
  constructor; heap_simpl; unfold ride_consistent, history_consistent in *.
  - exact Hwf'.
  - rewrite length_app, Hreg. cbn [length]. rewrite Nat.add_1_r, seq_S. reflexivity.
  - exact Hcus.
  - intros d o [Ho | [_ Ho]]%lookup_app_Some.
    + exact (Hdrv d o Ho).
    + apply list_lookup_singleton_Some in Ho as [_ <-]. reflexivity.
  - intros r ro Hr. destruct (Hrid r ro Hr) as (Hinv & Hfare & Hex).
    split_conj; [assumption.. |]. intros d Hd. heap_simpl.
    destruct (Hex d Hd) as [o Ho]. exists o. now apply lookup_app_l_Some.
  - exact Hhis.
Qed.

Lemma consistent_add_customer st name c st' :
  consistent st ->
  SwiftRideSystem_add_customer name st = Some (Return c, st') ->
  consistent st'.
Proof.
  intros [Hwf Hreg Hcus Hdrv Hrid Hhis] Hrun.
  pose proof (add_customer_well_formed st name c st' Hwf Hrun) as (Hwf' & _).
  injection Hrun as <- <-.
  constructor; heap_simpl; unfold ride_consistent, history_consistent in *.
  - exact Hwf'.
  - exact Hreg.
  - rewrite length_app, Hcus. cbn [length]. rewrite Nat.add_1_r, seq_S. reflexivity.
  - exact Hdrv.
  - exact Hrid.
  - intros c o [Ho | [_ Ho]]%lookup_app_Some.
    + exact (Hhis c o Ho).
    + apply list_lookup_singleton_Some in Ho as [_ <-].
      split; [apply NoDup_nil_2 |]. intros r Hr. now apply elem_of_nil in Hr.
Qed.

Lemma consistent_dropped st c pickup dropoff dist policy :
  consistent st -> consistent (dropped_state st c pickup dropoff dist policy).
Proof.
  intros [Hwf Hreg Hcus Hdrv Hrid Hhis]. unfold dropped_state.
  constructor; heap_simpl; unfold ride_consistent, history_consistent in *.
  - destruct Hwf as [Hv Hcl]. split; [exact Hv |].
    apply rides_closed_spec. intros r Href. heap_simpl.
    rewrite length_app. cbn [length].
    enough (r < length (ride_heap st))%nat by lia.
    apply (proj1 (rides_closed_spec st) Hcl). exact Href.
  - exact Hreg.
  - exact Hcus.
  - intros d o Ho. specialize (Hdrv d o Ho). unfold driver_consistent in *.
    destruct (current_ride o) as [r|]; [| assumption].
    destruct Hdrv as (Hs & ro & Hro & Hback & Hconf). split; [assumption |].
    exists ro. heap_simpl. split_conj; [now apply lookup_app_l_Some | assumption..].
  - intros r ro [Hr | [_ Hr]]%lookup_app_Some.
    + exact (Hrid r ro Hr).
    + apply list_lookup_singleton_Some in Hr as [_ <-].
      split_conj; [| reflexivity | intros d Hd; discriminate].
      unfold ride_invariant. cbn [is_confirmed driver]. split; [discriminate |].
      intros [x Hx]. discriminate.
  - intros c' o Ho. destruct (Hhis c' o Ho) as [Hnd Hall]. split; [assumption |].
    intros r Hr. destruct (Hall r Hr) as (ro & Hro & Hcust & Hconf).
    exists ro. heap_simpl. split_conj; [now apply lookup_app_l_Some | assumption..].
Qed.

Lemma consistent_booked st c pickup dropoff dist s policy cust d o :
  consistent st ->
  create_ride_type s = inr policy ->
  customer_heap st !! c = Some cust ->
  List.find (availableb (driver_heap st)) (drivers st) = Some d ->
  driver_heap st !! d = Some o ->
  consistent (booked_state st c pickup dropoff dist policy cust d o).
Proof.
  intros [Hwf Hreg Hcus Hdrv Hrid Hhis] Hs Hc Hfind Hd.
  pose proof (book_ride_assigned st c pickup dropoff dist s policy cust d o
                Hs Hc (proj1 Hwf) Hfind Hd) as Hrun.
  pose proof (lookup_lt_Some _ _ _ Hd) as Hdlt.
  unfold booked_state in *.
  constructor; heap_simpl; unfold ride_consistent, history_consistent in *.
  - exact (proj1 (book_ride_well_formed _ _ _ _ _ _ _ _ Hwf Hrun)).
  - now rewrite length_insert.
  - now rewrite length_insert.
  - intros d' o' [(<- & <- & _) | (_ & Ho')]%list_lookup_insert_Some.
    + unfold driver_consistent. cbn [current_ride status]. split; [reflexivity |].
      eexists. heap_simpl. split_conj; [apply lookup_snoc | reflexivity..].
    + specialize (Hdrv d' o' Ho'). unfold driver_consistent in *.
      destruct (current_ride o') as [r|]; [| assumption].
      destruct Hdrv as (Hst & ro & Hro & Hback & Hconf). split; [assumption |].
      exists ro. heap_simpl. split_conj; [now apply lookup_app_l_Some | assumption..].
  - intros r ro [Hr | [_ Hr]]%lookup_app_Some.
    + destruct (Hrid r ro Hr) as (Hinv & Hfare & Hex).
      split_conj; [assumption.. |]. intros d' Hd'. heap_simpl.
      apply lookup_lt_is_Some. rewrite length_insert.
      apply lookup_lt_is_Some. now apply Hex.
    + apply list_lookup_singleton_Some in Hr as [_ <-].
      split_conj; [| reflexivity |].
      * unfold ride_invariant. cbn [is_confirmed driver]. split; [eauto | reflexivity].
      * cbn [driver]. intros d' [= <-]. heap_simpl.
        apply lookup_lt_is_Some. now rewrite length_insert.
  - intros c' o' [(<- & <- & _) | (_ & Ho')]%list_lookup_insert_Some.
    + destruct (Hhis c cust Hc) as [Hnd Hall]. cbn [ride_history]. split.
      * apply NoDup_app. split_conj; [assumption | | apply NoDup_singleton].
        intros r Hr Hr'. apply list_elem_of_singleton in Hr'.
        destruct (Hall r Hr) as (ro & Hro & _).
        apply lookup_lt_Some in Hro. lia.
      * intros r [Hr | Hr]%elem_of_app.
        -- destruct (Hall r Hr) as (ro & Hro & Hcust & Hconf).
           exists ro. heap_simpl.
           split_conj; [now apply lookup_app_l_Some | assumption..].
        -- apply list_elem_of_singleton in Hr as ->.
           eexists. heap_simpl. split_conj; [apply lookup_snoc | reflexivity..].
    + destruct (Hhis c' o' Ho') as [Hnd Hall]. split; [assumption |].
      intros r Hr. destruct (Hall r Hr) as (ro & Hro & Hcust & Hconf).
      exists ro. heap_simpl. split_conj; [now apply lookup_app_l_Some | assumption..].
Qed.

Lemma consistent_completed st d st' :
  consistent st ->
  Driver_complete_ride d st = Some (Return tt, st') ->
  consistent st'.
Proof.
  intros [[Hv Hcl] Hreg Hcus Hdrv Hrid Hhis] Hrun.
  destruct (driver_heap st !! d) as [o|] eqn:Hd.
  2:{ unfold Driver_complete_ride, bind, update_driver in Hrun.
      rewrite Hd in Hrun. discriminate. }
  rewrite (Driver_complete_ride_run st d o Hd) in Hrun. injection Hrun as <-.
  constructor; heap_simpl; unfold ride_consistent, history_consistent in *.
  - split.
    + unfold registry_valid in *. heap_simpl.
      eapply Forall_impl; [exact Hv |]. intros d' Hd'. cbn beta in *.
      apply lookup_lt_is_Some. rewrite length_insert. now apply lookup_lt_is_Some.
    + apply rides_closed_spec. intros r Href. heap_simpl.
      apply (proj1 (rides_closed_spec st) Hcl).
      destruct Href as [(c' & o' & Hc' & Hin) | (d' & o' & Hd' & Hr)].
      * left. eauto.
      * cbn [driver_heap] in Hd'.
        apply list_lookup_insert_Some in Hd' as [(_ & <- & _) | (_ & Hd')];
          [discriminate | right; eauto].
  - now rewrite length_insert.
  - exact Hcus.
  - intros d' o' [(_ & <- & _) | (_ & Ho')]%list_lookup_insert_Some.
    + reflexivity.
    + exact (Hdrv d' o' Ho').
  - intros r ro Hr. destruct (Hrid r ro Hr) as (Hinv & Hfare & Hex).
    split_conj; [assumption.. |]. intros d' Hd'. heap_simpl.
    apply lookup_lt_is_Some. rewrite length_insert.
    apply lookup_lt_is_Some. now apply Hex.
  - exact Hhis.
Qed.

(** After the booking, the facade prints at most one line and does nothing
    else. *)
Lemma facade_book_ride_prints st c pickup dropoff dist s out st' :
  SwiftRideSystem_book_ride c pickup dropoff dist s st = Some (out, st') ->
  exists res st1,
    RideBookingService_book_ride c pickup dropoff dist s st = Some (res, st1) /\
    (st' = st1 \/ exists line, st' = set_stdout (stdout st1 ++ [line]) st1).
Proof.
  unfold SwiftRideSystem_book_ride. unfold bind at 1.
  destruct (RideBookingService_book_ride c pickup dropoff dist s st)
    as [[[[r|]|e] st1]|]; [| | | discriminate].
  - unfold bind, load, lift_exn, print, modify, raise, ret.
    intros H. exists (Return (Some r)), st1. split; [reflexivity |].
    destruct (ride_heap st1 !! r) as [o|]; [| discriminate].
    destruct (format_0f (fare o)) as [e|text]; [left; now injection H as <- <- |].
    destruct (driver o) as [d|]; [| left; now injection H as <- <-].
    destruct (driver_heap st1 !! d) as [dr|]; [| discriminate].
    right. injection H as <- <-. eauto.
  - intros H. exists (Return None), st1. split; [reflexivity |].
    right. injection H as <- <-. eauto.
  - intros H. exists (Raise e), st1. split; [reflexivity |].
    left. now injection H as <- <-.
Qed.

Lemma client_step_consistent st st' :
  consistent st -> client_step st st' -> consistent st'.
Proof.
  intros Hcons [[name d H | name c H | c pickup dropoff dist s out H] | d H].
  - exact (consistent_add_driver st name d st' Hcons H).
  - exact (consistent_add_customer st name c st' Hcons H).
  - apply facade_book_ride_prints in H as (res & st1 & Hbook & Hst').
    assert (Hcons1 : consistent st1).
    { destruct (book_ride_cases st c pickup dropoff dist s res st1
                  (proj1 (cons_wf st Hcons)) Hbook)
        as [(_ & _ & ->) | [(policy & _ & _ & _ & ->) |
            (policy & cust & d & o & Hs & Hc & Hfind & Hd & _ & _ & ->)]].
      - now apply (consistent_same_heaps st).
      - now apply consistent_dropped.
      - now apply (consistent_booked st c pickup dropoff dist s). }
    destruct Hst' as [-> | [line ->]]; [assumption |].
    now apply (consistent_same_heaps st1).
  - exact (consistent_completed st d st' Hcons H).
Qed.

Lemma client_reachable_consistent st : client_reachable st -> consistent st.
Proof.
  unfold client_reachable. revert st. apply rtc_ind_r.
  - exact consistent_init.
  - intros st1 st2 _ Hstep IH. exact (client_step_consistent st1 st2 IH Hstep).
Qed.

(** ** Policies and their names *)

(** X1: the factory resolves a string to a policy exactly when the string
    and the policy's own type name agree once both are lowered; so every
    name that [get_type_name] returns resolves back to its policy. *)
Theorem create_ride_type_iff_type_name (s : string) (p : RideType) :
  create_ride_type s = inr p <-> lower s = lower (get_type_name p).
Proof.
  unfold create_ride_type. rewrite ride_types_lookup.
  destruct (String.eqb_spec (lower s) "economy") as [He|He];
    [| destruct (String.eqb_spec (lower s) "luxury") as [Hl|Hl];
       [| destruct (String.eqb_spec (lower s) "pool") as [Hp|Hp]]].
  - rewrite He. destruct p; split; intros H; first [reflexivity | discriminate H].
  - rewrite Hl. destruct p; split; intros H; first [reflexivity | discriminate H].
  - rewrite Hp. destruct p; split; intros H; first [reflexivity | discriminate H].
  - split; [discriminate |]. intros H. exfalso.
    destruct p; [apply He | apply Hl | apply Hp]; rewrite H; vm_compute; reflexivity.
Qed.

(** X2: fares grow with the distance under every policy, and for a
    distance that is not negative they are not negative and ordered by
    category: Pool at most Economy at most Luxury. *)
Theorem fares_ordered (d1 d2 : Z) (Hd : 0 <= d1 <= d2) :
  (forall p, 0 <= calculate_fare p d1 <= calculate_fare p d2) /\
  calculate_fare PoolRide d1 <= calculate_fare EconomyRide d1 <= calculate_fare LuxuryRide d1.
Proof.
  split; [intros p; destruct p |]; unfold calculate_fare; lia.
Qed.

Lemma fares_ordered_witness :
  0 <= 5 <= 15 /\
  calculate_fare PoolRide 5 <= calculate_fare EconomyRide 5 <= calculate_fare LuxuryRide 5.
Proof.
  split; [lia |]. exact (proj2 (fares_ordered 5 15 ltac:(lia))).
Defined.

(** ** Drivers on their own *)

Lemma state_eta st :
  mkState (driver_heap st) (customer_heap st) (ride_heap st)
          (drivers st) (customers st) (stdout st) = st.
Proof. now destruct st. Qed.

Lemma driver_eta o : mkDriver (driver_name o) (status o) (current_ride o) = o.
Proof. now destruct o. Qed.

(** X3: [complete_ride] asks for nothing: on any driver it returns
    normally, a second call changes nothing more, and on a driver that is
    Available with no ride it leaves the whole state as it was. *)
Theorem complete_ride_idempotent (st : State) (d : ref) (o : Driver)
    (Hd : driver_heap st !! d = Some o) :
  exists st',
    Driver_complete_ride d st = Some (Return tt, st') /\
    Driver_complete_ride d st' = Some (Return tt, st') /\
    (status o = AVAILABLE -> current_ride o = None -> st' = st).
Proof.
  pose proof (lookup_lt_Some _ _ _ Hd) as Hlt.
  eexists. split; [exact (Driver_complete_ride_run st d o Hd) |]. split.
  - erewrite Driver_complete_ride_run;
      [| heap_simpl; now apply list_lookup_insert_eq].
    heap_simpl. unfold set_driver_heap. heap_simpl.
    now rewrite list_insert_insert_eq.
  - intros Hs Hr. rewrite <- Hs, <- Hr, driver_eta.
    rewrite list_insert_id by assumption.
    unfold set_driver_heap. apply state_eta.
Qed.

Lemma complete_ride_idempotent_witness :
  driver_heap st_one_booked !! 1%nat = Some (mkDriver "Bob" AVAILABLE None) /\
  Driver_complete_ride 1 st_one_booked = Some (Return tt, st_one_booked).
Proof.
  split; [reflexivity |].
  destruct (complete_ride_idempotent st_one_booked 1 (mkDriver "Bob" AVAILABLE None) eq_refl)
    as (st' & Hrun & _ & Hsame).
  rewrite Hrun. now rewrite (Hsame eq_refl eq_refl).
Defined.

(** X4: on a driver that is Available with no ride, assigning a ride and
    then completing it brings the whole state back. *)
Theorem assign_then_complete_restores (st : State) (d ride : ref) (o : Driver)
    (Hd : driver_heap st !! d = Some o)
    (Hs : status o = AVAILABLE)
    (Hr : current_ride o = None) :
  (Driver_assign_ride d ride ;;; Driver_complete_ride d) st = Some (Return tt, st).
Proof.
  pose proof (lookup_lt_Some _ _ _ Hd) as Hlt.
  rewrite (bind_Return _ _ _ _ _ (Driver_assign_ride_available st d ride o Hd Hs)).
  erewrite Driver_complete_ride_run;
    [| heap_simpl; now apply list_lookup_insert_eq].
  heap_simpl. unfold set_driver_heap. heap_simpl.
  rewrite list_insert_insert_eq. cbn [driver_name].
  rewrite <- Hs, <- Hr, driver_eta, list_insert_id by assumption.
  now rewrite state_eta.
Qed.

Lemma assign_then_complete_restores_witness :
  (driver_heap st_one_booked !! 1%nat = Some (mkDriver "Bob" AVAILABLE None)) /\
  (Driver_assign_ride 1 0 ;;; Driver_complete_ride 1) st_one_booked =
    Some (Return tt, st_one_booked).
Proof.
  split; [reflexivity |].
  exact (assign_then_complete_restores st_one_booked 1 0
           (mkDriver "Bob" AVAILABLE None) eq_refl eq_refl eq_refl).
Defined.

(** ** Registering and freeing drivers *)

(** The scan over a registry that has grown by one new driver. *)
Lemma find_available_grown (h : list Driver) (new : Driver) (ds : list ref) :
  Forall (fun d => is_Some (h !! d)) ds ->
  List.find (availableb (h ++ [new])) (ds ++ [length h]) =
    match List.find (availableb h) ds with
    | Some d => Some d
    | None => if DriverStatus_eqb (status new) AVAILABLE then Some (length h) else None
    end.
Proof.
  induction ds as [|d ds IH]; intros Hv.
  - cbn [app List.find]. unfold availableb. now rewrite lookup_snoc.
  - apply Forall_cons in Hv as [[o Ho] Hv].
    cbn [app List.find]. unfold availableb at 1 3.
    rewrite (lookup_app_l_Some _ _ _ _ Ho), Ho.
    destruct (DriverStatus_eqb (status o) AVAILABLE); [reflexivity | now apply IH].
Qed.

(** X5: a driver added to the system is new, Available and last in line:
    the next scan still returns the driver it returned before, and returns
    the new driver only if it found none before. *)
Theorem add_driver_then_get_available (st : State) (name : string)
    (Hv : registry_valid st) :
  exists (d : ref) (st' : State) (found : option ref),
    SwiftRideSystem_add_driver name st = Some (Return d, st') /\
    driver_heap st !! d = None /\
    driver_heap st' !! d = Some (mkDriver name AVAILABLE None) /\
    DriverManager_get_available_driver st = Some (Return found, st) /\
    DriverManager_get_available_driver st' =
      Some (Return (Some (match found with Some d0 => d0 | None => d end)), st').
Proof.
  eexists _, _, _. split; [reflexivity |]. heap_simpl.
  split; [now apply lookup_ge_None_2 |].
  split; [apply lookup_snoc |].
  split; [exact (get_available_driver_run st Hv) |].
  rewrite get_available_driver_run.
  - heap_simpl. rewrite (find_available_grown _ _ _ Hv). cbn [status DriverStatus_eqb].
    now destruct (List.find (availableb (driver_heap st)) (drivers st)).
  - unfold registry_valid in *. heap_simpl. apply Forall_app. split.
    + eapply Forall_impl; [exact Hv |]. intros d' [o Ho]. cbn beta.
      exists o. now apply lookup_app_l_Some.
    + apply Forall_singleton. eexists. apply lookup_snoc.
Qed.

Lemma add_driver_then_get_available_witness :
  registry_valid st_all_busy /\
  exists st',
    SwiftRideSystem_add_driver "Carol" st_all_busy = Some (Return 2%nat, st') /\
    DriverManager_get_available_driver st' = Some (Return (Some 2%nat), st').
Proof.
  split; [exact st_all_busy_valid |].
  destruct (add_driver_then_get_available st_all_busy "Carol" st_all_busy_valid)
    as (d & st' & found & Hadd & _ & _ & Hbefore & Hafter).
  exists st'.
  assert (Hd : d = 2%nat).
  { vm_compute in Hadd. injection Hadd as Hd _. now symmetry. }
  assert (Hf : found = None).
  { vm_compute in Hbefore. injection Hbefore as Hf. now symmetry. }
  subst d found. split; assumption.
Defined.

(** X6: completing the ride of a registered driver leaves a driver to
    book: the next scan returns that driver, or one registered before it
    that was Available already. *)
Theorem complete_ride_frees_a_driver (st : State) (d : ref)
    (Hv : registry_valid st)
    (Hin : d ∈ drivers st) :
  exists (st' : State) (d' : ref),
    Driver_complete_ride d st = Some (Return tt, st') /\
    DriverManager_get_available_driver st' = Some (Return (Some d'), st') /\
    (d' = d \/ availableb (driver_heap st) d' = true).
Proof.
  assert (Ho : is_Some (driver_heap st !! d)).
  { unfold registry_valid in Hv. rewrite Forall_forall in Hv. now apply Hv. }
  destruct Ho as [o Ho]. pose proof (lookup_lt_Some _ _ _ Ho) as Hlt.
  set (st' := set_driver_heap
                (<[d := mkDriver (driver_name o) AVAILABLE None]> (driver_heap st)) st).
  assert (Hv' : registry_valid st').
  { unfold registry_valid in *. subst st'. heap_simpl.
    eapply Forall_impl; [exact Hv |]. intros x Hx. cbn beta in *.
    apply lookup_lt_is_Some. rewrite length_insert. now apply lookup_lt_is_Some. }
  assert (Hav : availableb (driver_heap st') d = true).
  { subst st'. heap_simpl. unfold availableb.
    now rewrite list_lookup_insert_eq by assumption. }
  destruct (List.find (availableb (driver_heap st')) (drivers st')) as [d'|] eqn:Hfind.
  2:{ rewrite (proj1 (find_None_all _ _) Hfind d Hin) in Hav. discriminate. }
  exists st', d'.
  split; [exact (Driver_complete_ride_run st d o Ho) |].
  split; [rewrite (get_available_driver_run st' Hv'); now rewrite Hfind |].
  destruct (decide (d' = d)) as [->|Hne]; [now left | right].
  apply find_Some_first in Hfind as (_ & _ & Hav' & _).
  subst st'. cbn [set_driver_heap driver_heap] in Hav'. unfold availableb in *.
  now rewrite list_lookup_insert_ne in Hav' by congruence.
Qed.

Lemma complete_ride_frees_a_driver_witness :
  (registry_valid st_all_busy /\ 1%nat ∈ drivers st_all_busy) /\
  exists st',
    Driver_complete_ride 1 st_all_busy = Some (Return tt, st') /\
    DriverManager_get_available_driver st' = Some (Return (Some 1%nat), st').
Proof.
  assert (Hin : 1%nat ∈ drivers st_all_busy).
  { cbn [drivers st_all_busy]. apply list_elem_of_further, list_elem_of_here. }
  split; [split; [exact st_all_busy_valid | exact Hin] |].
  destruct (complete_ride_frees_a_driver st_all_busy 1 st_all_busy_valid Hin)
    as (st' & d' & Hrun & Hscan & [-> | Hav]).
  - exists st'. split; assumption.
  - rewrite (st_all_busy_none_available d') in Hav; [discriminate |].
    cbn [drivers st_all_busy].
    destruct d' as [|[|d']]; [apply list_elem_of_here
                             | apply list_elem_of_further, list_elem_of_here
                             | vm_compute in Hav; discriminate].
Defined.

(** X7: [Ride.assign_driver] with an Available driver links the two
    objects to each other: the ride names the driver and is confirmed, the
    driver is Occupied with the ride.  Every other field of the ride, every
    other driver and every other ride is as before; a driver that held this
    ride earlier is not released. *)
Theorem assign_driver_links_ride_and_driver (st : State) (r d : ref) (ro : Ride)
    (o : Driver)
    (Hr : ride_heap st !! r = Some ro)
    (Hd : driver_heap st !! d = Some o)
    (Hs : status o = AVAILABLE) :
  exists st',
    Ride_assign_driver r d st = Some (Return tt, st') /\
    ride_heap st' !! r =
      Some (mkRide (customer ro) (pickup_location ro) (dropoff_location ro)
                   (distance ro) (ride_type ro) (fare ro) (Some d) true) /\
    driver_heap st' !! d = Some (mkDriver (driver_name o) OCCUPIED (Some r)) /\
    (forall r', r' <> r -> ride_heap st' !! r' = ride_heap st !! r') /\
    (forall d', d' <> d -> driver_heap st' !! d' = driver_heap st !! d') /\
    customer_heap st' = customer_heap st /\
    drivers st' = drivers st /\
    customers st' = customers st /\
    stdout st' = stdout st.
Proof.
  eexists. split; [exact (Ride_assign_driver_available st r d ro o Hr Hd Hs) |].
  heap_simpl.
  split; [lookup_updated |]. split; [lookup_updated |].
  split; [lookup_framed |]. split; [lookup_framed |].
  repeat split.
Qed.

Lemma assign_driver_links_ride_and_driver_witness :
  (ride_heap st_pending !! 1%nat =
     Some (mkRide 1 "College" "Downtown" 10 LuxuryRide 100 None false) /\
   driver_heap st_pending !! 1%nat = Some (mkDriver "Bob" AVAILABLE None)) /\
  exists st',
    Ride_assign_driver 1 1 st_pending = Some (Return tt, st') /\
    ride_heap st' !! 1%nat =
      Some (mkRide 1 "College" "Downtown" 10 LuxuryRide 100 (Some 1%nat) true) /\
    driver_heap st' !! 1%nat = Some (mkDriver "Bob" OCCUPIED (Some 1%nat)).
Proof.
  split; [split; reflexivity |].
  destruct (assign_driver_links_ride_and_driver st_pending 1 1
              (mkRide 1 "College" "Downtown" 10 LuxuryRide 100 None false)
              (mkDriver "Bob" AVAILABLE None) eq_refl eq_refl eq_refl)
    as (st' & Hrun & Hride & Hdrv & _).
  exists st'. split; [exact Hrun |]. split; [exact Hride | exact Hdrv].
Defined.

(** ** What the facade prints *)

(** Below 2^53 in absolute value an int is a float, and [:.0f] writes it
    digit for digit. *)
Lemma format_0f_small (n : Z) :
  Z.abs n < 2 ^ 53 ->
  format_0f n = inr (NilZero.string_of_int (Z.to_int n)).
Proof.
  intros Hn. unfold format_0f, float_of_int.
  assert (Hbits : (Z.log2 (Z.abs n) + 1 <=? 53) = true).
  { apply Z.leb_le.
    destruct (Z.eq_dec (Z.abs n) 0) as [H0|H0]; [rewrite H0; cbn; lia |].
    assert (Z.log2 (Z.abs n) < 53) by (apply Z.log2_lt_pow2; lia). lia. }
  now rewrite Hbits.
Qed.

(** From 2^1024 on an int is too large for a float. *)
Lemma format_0f_overflow (n : Z) :
  2 ^ 1024 <= Z.abs n ->
  format_0f n = inl (OverflowError "int too large to convert to float").
Proof.
  intros Hn. unfold format_0f, float_of_int.
  set (a := Z.abs n) in *.
  assert (Hpos : 0 < a) by (pose proof (Z.pow_pos_nonneg 2 1024); lia).
  pose proof (Z.log2_spec a Hpos) as [Hlo _].
  assert (HL : 1024 <= Z.log2 a) by (apply Z.log2_le_pow2; lia).
  set (L := Z.log2 a) in *.
  destruct (Z.leb_spec (L + 1) 53) as [Hle|_]; [lia |].
  replace (L + 1 - 53) with (L - 52) by lia.
  set (sh := L - 52).
  set (q := Z.shiftr a sh).
  set (q' := if _ : bool then q + 1 else q).
  assert (Hq : 2 ^ 52 <= q).
  { subst q. rewrite Z.shiftr_div_pow2 by lia.
    apply Z.div_le_lower_bound; [apply Z.pow_pos_nonneg; lia |].
    rewrite <- Z.pow_add_r by lia. replace (sh + 52) with L by lia. exact Hlo. }
  assert (Hq' : q <= q') by (subst q'; destruct (_ : bool); lia).
  assert (Hv : Z.shiftl 1 1024 <= Z.shiftl q' sh).
  { rewrite !Z.shiftl_mul_pow2 by lia. rewrite Z.mul_1_l.
    transitivity (2 ^ L); [apply Z.pow_le_mono_r; lia |].
    replace L with (52 + sh) at 1 by lia. rewrite Z.pow_add_r by lia.
    apply Z.mul_le_mono_nonneg_r; [apply Z.pow_nonneg; lia | lia]. }
  apply Z.leb_le in Hv. now rewrite Hv.
Qed.

(** X8: for a category that is not recognized the facade prints two
    lines, the diagnostic of the booking service and then
    "No drivers available.", whatever the drivers are doing; nothing else
    changes and no exception leaves the call. *)
Theorem facade_invalid_category_prints_two_lines (st : State) (c : ref)
    (pickup dropoff : string) (dist : Z) (s : string)
    (Hs : recognized s = false) :
  SwiftRideSystem_book_ride c pickup dropoff dist s st =
    Some (Return tt,
          set_stdout
            (stdout st ++
               ["Error booking ride: Invalid ride type: " +:+ s; "No drivers available."])
            st).
Proof.
  assert (Hinl : create_ride_type s = inl (ValueError ("Invalid ride type: " +:+ s))).
  { rewrite create_ride_type_refines. unfold create_spec.
    unfold recognized in Hs.
    apply orb_false_elim in Hs as [Hs Hp]. apply orb_false_elim in Hs as [He Hl].
    now rewrite He, Hl, Hp. }
  unfold SwiftRideSystem_book_ride.
  rewrite (bind_Return _ _ _ _ _ (book_ride_invalid st c pickup dropoff dist s _ Hinl)).
  unfold print, modify. heap_simpl. unfold set_stdout. heap_simpl.
  now rewrite <- app_assoc.
Qed.

Lemma facade_invalid_category_prints_two_lines_witness :
  recognized "Premium" = false /\
  SwiftRideSystem_book_ride 0 "Airport" "Downtown" 15 "Premium" st_registered =
    Some (Return tt,
          set_stdout
            ["Error booking ride: Invalid ride type: Premium"; "No drivers available."]
            st_registered).
Proof.
  split; [reflexivity |].
  exact (facade_invalid_category_prints_two_lines st_registered 0 "Airport" "Downtown" 15
           "Premium" eq_refl).
Defined.

(** X9: when the booking succeeds and the fare is below 2^53 in absolute
    value, the facade prints one line, with the fare in plain decimal digits
    and the name of the driver the scan found; the state is that of the
    booking with this line added. *)
Theorem facade_prints_fare_and_driver (st : State) (c : ref)
    (pickup dropoff : string) (dist : Z) (s : string) (policy : RideType)
    (cust : Customer) (d : ref) (o : Driver)
    (Hs : create_ride_type s = inr policy)
    (Hc : customer_heap st !! c = Some cust)
    (Hv : registry_valid st)
    (Hfind : List.find (availableb (driver_heap st)) (drivers st) = Some d)
    (Hd : driver_heap st !! d = Some o)
    (Hsmall : Z.abs (calculate_fare policy dist) < 2 ^ 53) :
  SwiftRideSystem_book_ride c pickup dropoff dist s st =
    Some (Return tt,
          set_stdout
            (stdout st ++
               ["Ride Fare: $" +:+
                NilZero.string_of_int (Z.to_int (calculate_fare policy dist)) +:+
                ", Driver: " +:+ driver_name o])
            (booked_state st c pickup dropoff dist policy cust d o)).
Proof.
  pose proof (lookup_lt_Some _ _ _ Hd) as Hlt.
  unfold SwiftRideSystem_book_ride.
  rewrite (bind_Return _ _ _ _ _
             (book_ride_assigned st c pickup dropoff dist s policy cust d o
                Hs Hc Hv Hfind Hd)).
  fold (booked_state st c pickup dropoff dist policy cust d o).
  unfold bind at 1, load. unfold booked_state at 1. heap_simpl.
  rewrite lookup_snoc. cbn [fare driver].
  rewrite (format_0f_small _ Hsmall). cbn [lift_exn].
  unfold bind at 1, ret at 1.
  unfold bind at 1, load. unfold booked_state at 1. heap_simpl.
  rewrite list_lookup_insert_eq by assumption. cbn [driver_name].
  reflexivity.
Qed.

Lemma facade_prints_fare_and_driver_witness :
  (create_ride_type "Economy" = inr EconomyRide /\
   customer_heap st_registered !! 0%nat = Some (mkCustomer "John" []) /\
   registry_valid st_registered /\
   List.find (availableb (driver_heap st_registered)) (drivers st_registered) =
     Some 0%nat /\
   driver_heap st_registered !! 0%nat = Some (mkDriver "Alice" AVAILABLE None) /\
   Z.abs (calculate_fare EconomyRide 15) < 2 ^ 53) /\
  exists st',
    SwiftRideSystem_book_ride 0 "Airport" "Downtown" 15 "Economy" st_registered =
      Some (Return tt, st') /\
    stdout st' = ["Ride Fare: $75, Driver: Alice"].
Proof.
  assert (Hs : create_ride_type "Economy" = inr EconomyRide) by (vm_compute; reflexivity).
  assert (Hsmall : Z.abs (calculate_fare EconomyRide 15) < 2 ^ 53)
    by (vm_compute; reflexivity).
  split;
    [split; [exact Hs |]; split; [reflexivity |];
     split; [exact st_registered_valid |]; split; [reflexivity |];
     split; [reflexivity | exact Hsmall] |].
  eexists. split.
  - exact (facade_prints_fare_and_driver st_registered 0 "Airport" "Downtown" 15
             "Economy" EconomyRide (mkCustomer "John" []) 0
             (mkDriver "Alice" AVAILABLE None)
             Hs eq_refl st_registered_valid eq_refl eq_refl Hsmall).
  - vm_compute. reflexivity.
Defined.

(** X10: when the category is valid and no registered driver is
    Available, the facade prints "No drivers available." and nothing else;
    the state is that of the failed booking with this line added. *)
Theorem facade_prints_no_drivers (st : State) (c : ref)
    (pickup dropoff : string) (dist : Z) (s : string) (policy : RideType)
    (Hs : create_ride_type s = inr policy)
    (Hv : registry_valid st)
    (Hnone : forall d, d ∈ drivers st -> availableb (driver_heap st) d = false) :
  SwiftRideSystem_book_ride c pickup dropoff dist s st =
    Some (Return tt,
          set_stdout (stdout st ++ ["No drivers available."])
                     (dropped_state st c pickup dropoff dist policy)).
Proof.
  unfold SwiftRideSystem_book_ride.
  erewrite bind_Return;
    [| apply (book_ride_no_driver st c pickup dropoff dist s policy Hs Hv);
       now apply find_None_all].
  reflexivity.
Qed.

Lemma facade_prints_no_drivers_witness :
  (create_ride_type "Pool" = inr PoolRide /\
   registry_valid st_all_busy /\
   forall d, d ∈ drivers st_all_busy -> availableb (driver_heap st_all_busy) d = false) /\
  SwiftRideSystem_book_ride 2 "Downtown" "Shopping Mall" 5 "Pool" st_all_busy =
    Some (Return tt,
          set_stdout ["No drivers available."]
                     (dropped_state st_all_busy 2 "Downtown" "Shopping Mall" 5 PoolRide)).
Proof.
  assert (Hs : create_ride_type "Pool" = inr PoolRide) by (vm_compute; reflexivity).
  split;
    [split; [exact Hs |]; split;
     [exact st_all_busy_valid | exact st_all_busy_none_available] |].
  exact (facade_prints_no_drivers st_all_busy 2 "Downtown" "Shopping Mall" 5 "Pool"
           PoolRide Hs st_all_busy_valid st_all_busy_none_available).
Defined.

(** X11: when the booking succeeds with a fare of 2^1024 or more in
    absolute value, the facade raises [OverflowError] out of the formatting,
    prints nothing, and the booking stays made: the ride is in the
    customer's history and the driver is Occupied. *)
Theorem facade_overflow_after_booking (st : State) (c : ref)
    (pickup dropoff : string) (dist : Z) (s : string) (policy : RideType)
    (cust : Customer) (d : ref) (o : Driver)
    (Hs : create_ride_type s = inr policy)
    (Hc : customer_heap st !! c = Some cust)
    (Hv : registry_valid st)
    (Hfind : List.find (availableb (driver_heap st)) (drivers st) = Some d)
    (Hd : driver_heap st !! d = Some o)
    (Hhuge : 2 ^ 1024 <= Z.abs (calculate_fare policy dist)) :
  SwiftRideSystem_book_ride c pickup dropoff dist s st =
    Some (Raise (OverflowError "int too large to convert to float"),
          booked_state st c pickup dropoff dist policy cust d o).
Proof.
  unfold SwiftRideSystem_book_ride.
  rewrite (bind_Return _ _ _ _ _
             (book_ride_assigned st c pickup dropoff dist s policy cust d o
                Hs Hc Hv Hfind Hd)).
  fold (booked_state st c pickup dropoff dist policy cust d o).
  unfold bind at 1, load. unfold booked_state at 1. heap_simpl.
  rewrite lookup_snoc. cbn [fare driver].
  rewrite (format_0f_overflow _ Hhuge). reflexivity.
Qed.

Lemma facade_overflow_after_booking_witness :
  (create_ride_type "Pool" = inr PoolRide /\
   customer_heap st_registered !! 0%nat = Some (mkCustomer "John" []) /\
   registry_valid st_registered /\
   List.find (availableb (driver_heap st_registered)) (drivers st_registered) =
     Some 0%nat /\
   driver_heap st_registered !! 0%nat = Some (mkDriver "Alice" AVAILABLE None) /\
   2 ^ 1024 <= Z.abs (calculate_fare PoolRide (2 ^ 1024))) /\
  SwiftRideSystem_book_ride 0 "Airport" "Downtown" (2 ^ 1024) "Pool" st_registered =
    Some (Raise (OverflowError "int too large to convert to float"),
          booked_state st_registered 0 "Airport" "Downtown" (2 ^ 1024) PoolRide
            (mkCustomer "John" []) 0 (mkDriver "Alice" AVAILABLE None)).
Proof.
  assert (Hs : create_ride_type "Pool" = inr PoolRide) by (vm_compute; reflexivity).
  assert (Hhuge : 2 ^ 1024 <= Z.abs (calculate_fare PoolRide (2 ^ 1024))).
  { unfold calculate_fare. pose proof (Z.pow_pos_nonneg 2 1024). lia. }
  split;
    [split; [exact Hs |]; split; [reflexivity |];
     split; [exact st_registered_valid |]; split; [reflexivity |];
     split; [reflexivity | exact Hhuge] |].
  exact (facade_overflow_after_booking st_registered 0 "Airport" "Downtown" (2 ^ 1024)
           "Pool" PoolRide (mkCustomer "John" []) 0 (mkDriver "Alice" AVAILABLE None)
           Hs eq_refl st_registered_valid eq_refl eq_refl Hhuge).
Defined.

(** ** What holds in every state a client reaches *)

(** X12: however a client mixes registrations, bookings through the
    facade and [complete_ride], a driver is Occupied exactly when it has a
    current ride, and that ride names this driver and is confirmed. *)
Theorem reachable_driver_occupied_iff_ride (st : State) (d : ref) (o : Driver)
    (Hreach : client_reachable st)
    (Hd : driver_heap st !! d = Some o) :
  (status o = OCCUPIED <-> is_Some (current_ride o)) /\
  forall r, current_ride o = Some r ->
    exists ro, ride_heap st !! r = Some ro /\ driver ro = Some d /\ is_confirmed ro = true.
Proof.
  pose proof (cons_drivers st (client_reachable_consistent st Hreach) d o Hd) as H.
  unfold driver_consistent in H.
  destruct (current_ride o) as [r|].
  - destruct H as [Hs Hro]. split.
    + split; [eauto | intros _; exact Hs].
    + intros r' [= <-]. exact Hro.
  - split.
    + rewrite H. split; [discriminate | intros [x Hx]; discriminate].
    + intros r' Hr'. discriminate.
Qed.

Lemma reachable_driver_occupied_iff_ride_witness :
  (client_reachable st_client /\
   driver_heap st_client !! 0%nat = Some (mkDriver "Alice" OCCUPIED (Some 0%nat))) /\
  exists ro,
    ride_heap st_client !! 0%nat = Some ro /\
    driver ro = Some 0%nat /\ is_confirmed ro = true.
Proof.
  split; [split; [exact st_client_reachable | reflexivity] |].
  exact (proj2 (reachable_driver_occupied_iff_ride st_client 0
                  (mkDriver "Alice" OCCUPIED (Some 0%nat))
                  st_client_reachable eq_refl) 0%nat eq_refl).
Defined.

(** X13: in every state a client reaches, every ride in the heap, booked
    or dropped, is confirmed exactly when it has a driver, and its fare is
    still the fare of its policy for its distance. *)
Theorem reachable_ride_confirmed_iff_driver (st : State) (r : ref) (ro : Ride)
    (Hreach : client_reachable st)
    (Hr : ride_heap st !! r = Some ro) :
  ride_invariant ro /\
  fare ro = calculate_fare (ride_type ro) (distance ro).
Proof.
  destruct (cons_rides st (client_reachable_consistent st Hreach) r ro Hr)
    as (Hinv & Hfare & _).
  split; assumption.
Qed.

Lemma reachable_ride_confirmed_iff_driver_witness :
  (client_reachable st_client /\
   ride_heap st_client !! 0%nat =
     Some (mkRide 0 "Airport" "Downtown" 15 EconomyRide 75 (Some 0%nat) true)) /\
  75 = calculate_fare EconomyRide 15.
Proof.
  split; [split; [exact st_client_reachable | reflexivity] |].
  exact (proj2 (reachable_ride_confirmed_iff_driver st_client 0
                  (mkRide 0 "Airport" "Downtown" 15 EconomyRide 75 (Some 0%nat) true)
                  st_client_reachable eq_refl)).
Defined.

(** X14: in every state a client reaches, a customer's history lists no
    ride twice, each of its rides is a confirmed ride of this customer with
    a driver, and no ride is in the histories of two customers. *)
Theorem reachable_history_rides (st : State) (c : ref) (o : Customer)
    (Hreach : client_reachable st)
    (Hc : customer_heap st !! c = Some o) :
  NoDup (ride_history o) /\
  forall r, r ∈ ride_history o ->
    (exists ro d,
       ride_heap st !! r = Some ro /\ customer ro = c /\
       is_confirmed ro = true /\ driver ro = Some d) /\
    (forall c' o', c' <> c -> customer_heap st !! c' = Some o' -> r ∉ ride_history o').
Proof.
  pose proof (client_reachable_consistent st Hreach) as Hcons.
  destruct (cons_histories st Hcons c o Hc) as [Hnd Hall].
  split; [assumption |]. intros r Hr.
  destruct (Hall r Hr) as (ro & Hro & Hcust & Hconf). split.
  - destruct (cons_rides st Hcons r ro Hro) as (Hinv & _ & _).
    destruct (proj1 Hinv Hconf) as [d Hd]. exists ro, d. auto.
  - intros c' o' Hne Hc' Hr'.
    destruct (cons_histories st Hcons c' o' Hc') as [_ Hall'].
    destruct (Hall' r Hr') as (ro' & Hro' & Hcust' & _).
    congruence.
Qed.

Lemma reachable_history_rides_witness :
  (client_reachable st_client /\
   customer_heap st_client !! 0%nat = Some (mkCustomer "John" [0%nat])) /\
  NoDup [0%nat].
Proof.
  split; [split; [exact st_client_reachable | reflexivity] |].
  exact (proj1 (reachable_history_rides st_client 0 (mkCustomer "John" [0%nat])
                  st_client_reachable eq_refl)).
Defined.

(** X15: in every state a client reaches, [get_all_drivers] returns each
    driver of the system exactly once and changes nothing. *)
Theorem reachable_all_drivers_once (st : State)
    (Hreach : client_reachable st) :
  exists l,
    DriverManager_get_all_drivers st = Some (Return l, st) /\
    NoDup l /\
    forall d, d ∈ l <-> is_Some (driver_heap st !! d).
Proof.
  exists (drivers st). split; [reflexivity |].
  rewrite (cons_registry st (client_reachable_consistent st Hreach)).
  split; [apply NoDup_seq |].
  intros d. rewrite elem_of_seq, lookup_lt_is_Some. lia.
Qed.

Lemma reachable_all_drivers_once_witness :
  client_reachable st_client /\
  DriverManager_get_all_drivers st_client = Some (Return [0; 1]%nat, st_client).
Proof.
  split; [exact st_client_reachable |].
  destruct (reachable_all_drivers_once st_client st_client_reachable) as (l & Hrun & _).
  rewrite Hrun. vm_compute in Hrun. injection Hrun as <-. reflexivity.
Defined.

(** ** Bookings one after another *)

(** X16: two bookings in a row that both succeed give two different
    rides with two different drivers. *)
Theorem consecutive_bookings_distinct_drivers (st st1 st2 : State)
    (c1 c2 : ref) (pickup1 dropoff1 pickup2 dropoff2 : string) (dist1 dist2 : Z)
    (s1 s2 : string) (r1 r2 : ref)
    (Hwf : well_formed st)
    (H1 : RideBookingService_book_ride c1 pickup1 dropoff1 dist1 s1 st =
            Some (Return (Some r1), st1))
    (H2 : RideBookingService_book_ride c2 pickup2 dropoff2 dist2 s2 st1 =
            Some (Return (Some r2), st2)) :
  r1 <> r2 /\
  exists ro1 ro2 d1 d2,
    ride_heap st2 !! r1 = Some ro1 /\ ride_heap st2 !! r2 = Some ro2 /\
    driver ro1 = Some d1 /\ driver ro2 = Some d2 /\ d1 <> d2.
Proof.
  pose proof (proj1 (book_ride_well_formed _ _ _ _ _ _ _ _ Hwf H1)) as Hwf1.
  destruct (book_ride_cases _ _ _ _ _ _ _ _ (proj1 Hwf) H1)
    as [(_ & [=] & _) | [(p & _ & _ & [=] & _) |
        (p1 & cust1 & d1 & o1 & _ & _ & _ & Hd1 & _ & [= ->] & ->)]].
  destruct (book_ride_cases _ _ _ _ _ _ _ _ (proj1 Hwf1) H2)
    as [(_ & [=] & _) | [(p & _ & _ & [=] & _) |
        (p2 & cust2 & d2 & o2 & _ & _ & _ & Hd2 & Hs2 & [= ->] & ->)]].
  pose proof (lookup_lt_Some _ _ _ Hd1) as Hlt.
  unfold booked_state in *. heap_simpl. cbn [ride_heap driver_heap] in Hd2.
  split; [rewrite length_app; cbn [length]; lia |].
  eexists _, _, d1, d2.
  split; [apply lookup_app_l_Some, lookup_snoc |].
  split; [apply lookup_snoc |].
  split; [reflexivity |]. split; [reflexivity |].
  intros <-. rewrite list_lookup_insert_eq in Hd2 by assumption.
  injection Hd2 as <-. discriminate.
Qed.

Lemma consecutive_bookings_distinct_drivers_witness :
  (well_formed st_registered /\
   book_john st_registered = Some (Return (Some 0%nat), st_one_booked) /\
   book_rebecca st_one_booked = Some (Return (Some 1%nat), st_all_busy)) /\
  0%nat <> 1%nat.
Proof.
  assert (Hwf : well_formed st_registered)
    by (split; [exact st_registered_valid | reflexivity]).
  assert (H1 : book_john st_registered = Some (Return (Some 0%nat), st_one_booked))
    by (vm_compute; reflexivity).
  assert (H2 : book_rebecca st_one_booked = Some (Return (Some 1%nat), st_all_busy))
    by (vm_compute; reflexivity).
  split; [split; [exact Hwf | split; [exact H1 | exact H2]] |].
  exact (proj1 (consecutive_bookings_distinct_drivers st_registered st_one_booked
                  st_all_busy 0 1 "Airport" "Downtown" "College" "Downtown" 15 10
                  "Economy" "Luxury" 0 1 Hwf H1 H2)).
Defined.

(** Counting with a test that differs from another at one element only. *)
Lemma filter_length_one_less (p q : ref -> bool) (l : list ref) (d : ref) :
  NoDup l -> d ∈ l -> p d = true -> q d = false ->
  (forall x, x <> d -> q x = p x) ->
  (length (List.filter q l) + 1 = length (List.filter p l))%nat.
Proof.
  intros Hnd Hin Hp Hq Hext.
  induction l as [|a l IH]; [now apply elem_of_nil in Hin |].
  apply NoDup_cons in Hnd as [Hnotin Hnd].
  cbn [List.filter].
  destruct (decide (a = d)) as [->|Hne].
  - rewrite Hp, Hq. cbn [length].
    enough (List.filter q l = List.filter p l) as -> by lia.
    apply List.filter_ext_in. intros x Hx. apply Hext. intros ->.
    now apply Hnotin, list_elem_of_In.
  - apply elem_of_cons in Hin as [->|Hin]; [congruence |].
    rewrite (Hext a Hne). specialize (IH Hnd Hin).
    destruct (p a); cbn [length]; lia.
Qed.

(** X17: in a registry without repetition, a booking that succeeds takes
    exactly one driver out of the Available ones, and a booking that returns
    [None] takes none. *)
Theorem booking_takes_one_driver (st st1 : State) (c : ref)
    (pickup dropoff : string) (dist : Z) (s : string) (res : option ref)
    (Hv : registry_valid st)
    (Hnd : NoDup (drivers st))
    (Hrun : RideBookingService_book_ride c pickup dropoff dist s st =
              Some (Return res, st1)) :
  match res with
  | Some _ => (available_count st1 + 1 = available_count st)%nat
  | None => available_count st1 = available_count st
  end.
Proof.
  destruct (book_ride_cases _ _ _ _ _ _ _ _ Hv Hrun)
    as [(_ & [= ->] & ->) | [(p & _ & _ & [= ->] & ->) |
        (p & cust & d & o & _ & _ & Hfind & Hd & Hs & [= ->] & ->)]];
    [reflexivity | reflexivity |].
  pose proof (lookup_lt_Some _ _ _ Hd) as Hlt.
  unfold available_count, booked_state. heap_simpl.
  apply filter_length_one_less with (d := d).
  - exact Hnd.
  - apply find_Some_first in Hfind as (i & Hi & _). eapply list_elem_of_lookup_2, Hi.
  - unfold availableb. rewrite Hd, Hs. reflexivity.
  - unfold availableb. now rewrite list_lookup_insert_eq by assumption.
  - intros x Hne. unfold availableb. now rewrite list_lookup_insert_ne by congruence.
Qed.

Lemma booking_takes_one_driver_witness :
  (registry_valid st_registered /\ NoDup (drivers st_registered) /\
   book_john st_registered = Some (Return (Some 0%nat), st_one_booked)) /\
  (available_count st_one_booked + 1 = available_count st_registered)%nat.
Proof.
  assert (Hnd : NoDup (drivers st_registered)).
  { cbn [drivers st_registered]. apply (NoDup_seq 0 2). }
  assert (H1 : book_john st_registered = Some (Return (Some 0%nat), st_one_booked))
    by (vm_compute; reflexivity).
  split; [split; [exact st_registered_valid | split; [exact Hnd | exact H1]] |].
  exact (booking_takes_one_driver st_registered st_one_booked 0 "Airport" "Downtown" 15
           "Economy" (Some 0%nat) st_registered_valid Hnd H1).
Defined.

(** ** Nothing is taken back *)

Lemma prefix_snoc_r {A} (l : list A) (x : A) : l `prefix_of` (l ++ [x])%list.
Proof. now exists [x]. Qed.

Lemma grows_refl st : grows st st.
Proof.
  unfold grows. split_conj; try reflexivity.
  - intros c o Hc. exists o. auto.
  - intros d o Hd. exists o. auto.
Qed.

Lemma grows_trans st1 st2 st3 : grows st1 st2 -> grows st2 st3 -> grows st1 st3.
Proof.
  intros (Hr & Hl & Hcs & Ho & Hc & Hd) (Hr' & Hl' & Hcs' & Ho' & Hc' & Hd').
  unfold grows. split_conj; try (etrans; eassumption).
  - intros c o H. destruct (Hc c o H) as (o1 & H1 & Hn1 & Hh1).
    destruct (Hc' c o1 H1) as (o2 & H2 & Hn2 & Hh2).
    exists o2. split_conj; [assumption | congruence | etrans; eassumption].
  - intros d o H. destruct (Hd d o H) as (o1 & H1 & Hn1).
    destruct (Hd' d o1 H1) as (o2 & H2 & Hn2).
    exists o2. split; [assumption | congruence].
Qed.

(** A state that differs in the output only, by lines added. *)
Lemma grows_print st lines : grows st (set_stdout (stdout st ++ lines) st).
Proof.
  unfold grows. heap_simpl. split_conj; try reflexivity.
  - now exists lines.
  - intros c o Hc. exists o. auto.
  - intros d o Hd. exists o. auto.
Qed.

Lemma grows_dropped st c pickup dropoff dist policy :
  grows st (dropped_state st c pickup dropoff dist policy).
Proof.
  unfold grows, dropped_state. heap_simpl. split_conj; try reflexivity.
  - apply prefix_snoc_r.
  - intros c' o Hc. exists o. auto.
  - intros d o Hd. exists o. auto.
Qed.

Lemma grows_booked st c pickup dropoff dist policy cust d o :
  customer_heap st !! c = Some cust ->
  driver_heap st !! d = Some o ->
  grows st (booked_state st c pickup dropoff dist policy cust d o).
Proof.
  intros Hc Hd.
  pose proof (lookup_lt_Some _ _ _ Hc) as Hclt.
  pose proof (lookup_lt_Some _ _ _ Hd) as Hdlt.
  unfold grows, booked_state. heap_simpl. split_conj; try reflexivity.
  - apply prefix_snoc_r.
  - intros c' o' Hc'. destruct (decide (c' = c)) as [->|Hne].
    + assert (Heq : Some cust = Some o') by (rewrite <- Hc; exact Hc').
      injection Heq as <-.
      eexists. split; [now apply list_lookup_insert_eq |].
      split; [reflexivity | apply prefix_snoc_r].
    + exists o'. rewrite list_lookup_insert_ne by congruence. auto.
  - intros d' o' Hd'. destruct (decide (d' = d)) as [->|Hne].
    + assert (Heq : Some o = Some o') by (rewrite <- Hd; exact Hd').
      injection Heq as <-.
      eexists. split; [now apply list_lookup_insert_eq | reflexivity].
    + exists o'. rewrite list_lookup_insert_ne by congruence. auto.
Qed.

Lemma client_step_grows st st' :
  well_formed st -> client_step st st' -> grows st st'.
Proof.
  intros Hwf [[name d H | name c H | c pickup dropoff dist s out H] | d H].
  - injection H as <- <-. unfold grows. heap_simpl. split_conj; try reflexivity.
    + apply prefix_snoc_r.
    + intros c o Hc. exists o. auto.
    + intros d o Hd. exists o. split; [now apply lookup_app_l_Some | reflexivity].
  - injection H as <- <-. unfold grows. heap_simpl. split_conj; try reflexivity.
    + apply prefix_snoc_r.
    + intros c o Hc. exists o. split_conj; [now apply lookup_app_l_Some | reflexivity..].
    + intros d o Hd. exists o. auto.
  - apply facade_book_ride_prints in H as (res & st1 & Hbook & Hst').
    apply (grows_trans st st1).
    + destruct (book_ride_cases st c pickup dropoff dist s res st1 (proj1 Hwf) Hbook)
        as [(_ & _ & ->) | [(policy & _ & _ & _ & ->) |
            (policy & cust & d & o & _ & Hc & _ & Hd & _ & _ & ->)]].
      * apply grows_print.
      * apply grows_dropped.
      * now apply grows_booked.
    + destruct Hst' as [-> | [line ->]]; [apply grows_refl | apply grows_print].
  - destruct (driver_heap st !! d) as [o|] eqn:Hd.
    2:{ unfold Driver_complete_ride, bind, update_driver in H.
        rewrite Hd in H. discriminate. }
    pose proof (lookup_lt_Some _ _ _ Hd) as Hlt.
    rewrite (Driver_complete_ride_run st d o Hd) in H. injection H as <-.
    unfold grows. heap_simpl. split_conj; try reflexivity.
    + intros c o' Hc. exists o'. auto.
    + intros d' o' Hd'. destruct (decide (d' = d)) as [->|Hne].
      * assert (Heq : Some o = Some o') by (rewrite <- Hd; exact Hd').
        injection Heq as <-.
        eexists. split; [now apply list_lookup_insert_eq | reflexivity].
      * exists o'. rewrite list_lookup_insert_ne by congruence. auto.
Qed.

Lemma client_steps_grow st st' :
  client_reachable st -> rtc client_step st st' -> client_reachable st' /\ grows st st'.
Proof.
  intros Hreach. revert st'. apply rtc_ind_r.
  - split; [assumption | apply grows_refl].
  - intros st1 st2 _ Hstep [Hreach1 Hgrow1]. split.
    + unfold client_reachable in *. eapply rtc_r; eassumption.
    + apply (grows_trans st st1 st2 Hgrow1).
      apply client_step_grows; [| assumption].
      exact (cons_wf st1 (client_reachable_consistent st1 Hreach1)).
Qed.

(** X18: whatever a client does next, nothing is taken back.  The rides
    of the heap stay as they are, field for field; the registry, the list of
    customers and the output only get longer; every customer and every
    driver keeps its name; every history only gets longer. *)
Theorem client_steps_only_add (st st' : State)
    (Hreach : client_reachable st)
    (Hsteps : rtc client_step st st') :
  ride_heap st `prefix_of` ride_heap st' /\
  drivers st `prefix_of` drivers st' /\
  customers st `prefix_of` customers st' /\
  stdout st `prefix_of` stdout st' /\
  (forall c o, customer_heap st !! c = Some o ->
     exists o', customer_heap st' !! c = Some o' /\
                customer_name o' = customer_name o /\
                ride_history o `prefix_of` ride_history o') /\
  (forall d o, driver_heap st !! d = Some o ->
     exists o', driver_heap st' !! d = Some o' /\ driver_name o' = driver_name o).
Proof. exact (proj2 (client_steps_grow st st' Hreach Hsteps)). Qed.

(** [st_client_later] comes after [st_client]. *)
Lemma st_client_later_reached : rtc client_step st_client st_client_later.
Proof.
  eapply rtc_l;
    [apply client_facade, (step_add_customer _ _ "Rebecca" 1%nat); vm_compute; reflexivity |].
  eapply rtc_l;
    [apply client_facade,
       (step_book_ride _ _ 1%nat "College" "Downtown" 10 "Luxury" (Return tt));
     vm_compute; reflexivity |].
  eapply rtc_l; [apply (client_complete_ride _ _ 0%nat); vm_compute; reflexivity |].
  eapply rtc_l;
    [apply client_facade,
       (step_book_ride _ _ 0%nat "Downtown" "Shopping Mall" 5 "Pool" (Return tt));
     vm_compute; reflexivity |].
  apply rtc_refl.
Defined.

(** From John's first ride to his second: ride 0 is where and what it
    was, John is John and his history has grown from [[0]], Alice is still
    Alice, and the first printed line is still first. *)
Lemma client_steps_only_add_witness :
  (client_reachable st_client /\ rtc client_step st_client st_client_later) /\
  ride_heap st_client_later !! 0%nat =
    Some (mkRide 0 "Airport" "Downtown" 15 EconomyRide 75 (Some 0%nat) true) /\
  (exists o', customer_heap st_client_later !! 0%nat = Some o' /\
              customer_name o' = "John" /\ [0%nat] `prefix_of` ride_history o') /\
  (exists o', driver_heap st_client_later !! 0%nat = Some o' /\
              driver_name o' = "Alice") /\
  stdout st_client `prefix_of` stdout st_client_later.
Proof.
  split; [split; [exact st_client_reachable | exact st_client_later_reached] |].
  destruct (client_steps_only_add st_client st_client_later
              st_client_reachable st_client_later_reached)
    as (Hrides & _ & _ & Hout & Hcust & Hdrv).
  split;
    [exact (prefix_lookup_Some (ride_heap st_client) _ 0%nat
              (mkRide 0 "Airport" "Downtown" 15 EconomyRide 75 (Some 0%nat) true)
              eq_refl Hrides) |].
  split; [exact (Hcust 0%nat (mkCustomer "John" [0%nat]) eq_refl) |].
  split; [exact (Hdrv 0%nat (mkDriver "Alice" OCCUPIED (Some 0%nat)) eq_refl) |].
  exact Hout.
Defined.

(** ** What a call never does *)

(** X20: whatever its outcome, a booking leaves every Occupied driver as
    it is, with its ride, and every earlier ride as it is; it prints only
    when it refuses the category. *)
Theorem booking_keeps_busy_drivers (st st1 : State) (c : ref)
    (pickup dropoff : string) (dist : Z) (s : string) (res : outcome (option ref))
    (Hv : registry_valid st)
    (Hrun : RideBookingService_book_ride c pickup dropoff dist s st = Some (res, st1)) :
  (forall d o, driver_heap st !! d = Some o -> status o = OCCUPIED ->
               driver_heap st1 !! d = Some o) /\
  (forall r ro, ride_heap st !! r = Some ro -> ride_heap st1 !! r = Some ro) /\
  (recognized s = true -> stdout st1 = stdout st).
Proof.
  destruct (book_ride_cases _ _ _ _ _ _ _ _ Hv Hrun)
    as [(Hs & _ & ->) | [(p & _ & _ & _ & ->) |
        (p & cust & d & o & _ & _ & _ & Hd & Hs & _ & ->)]].
  - split_conj; [auto | auto |]. intros Hrec.
    rewrite create_ride_type_refines in Hs. unfold create_spec in Hs.
    unfold recognized in Hrec.
    destruct (casing_of s "economy"); [discriminate |].
    destruct (casing_of s "luxury"); [discriminate |].
    destruct (casing_of s "pool"); discriminate.
  - unfold dropped_state. heap_simpl. split_conj; [auto | | reflexivity].
    intros r ro Hr. now apply lookup_app_l_Some.
  - unfold booked_state. heap_simpl. split_conj; [| | reflexivity].
    + intros d' o' Hd' Hs'. rewrite list_lookup_insert_ne; [assumption |].
      intros <-. assert (Heq : Some o = Some o') by (rewrite <- Hd; exact Hd').
      injection Heq as <-. congruence.
    + intros r ro Hr. now apply lookup_app_l_Some.
Qed.

Lemma booking_keeps_busy_drivers_witness :
  (registry_valid st_one_booked /\
   book_rebecca st_one_booked = Some (Return (Some 1%nat), st_all_busy)) /\
  driver_heap st_all_busy !! 0%nat = Some (mkDriver "Alice" OCCUPIED (Some 0%nat)).
Proof.
  assert (H2 : book_rebecca st_one_booked = Some (Return (Some 1%nat), st_all_busy))
    by (vm_compute; reflexivity).
  split; [split; [exact st_one_booked_valid | exact H2] |].
  exact (proj1 (booking_keeps_busy_drivers st_one_booked st_all_busy 1 "College"
                  "Downtown" 10 "Luxury" (Return (Some 1%nat)) st_one_booked_valid H2)
           0%nat (mkDriver "Alice" OCCUPIED (Some 0%nat)) eq_refl eq_refl).
Defined.
